(** * OfOpsApi: the message-safety pipeline

    A shallow embedding of the moderation service
    ([server/services/moderation.ts]), the audit service
    ([server/services/audit.ts]), the storage operations they use
    ([server/storage.ts]) and the three route handlers of [server/routes.ts]
    that make up the pipeline: [POST /api/ai/reply],
    [POST /api/consent/affirm] and [PUT /api/moderation/queue/:id].

    Conventions of the embedding.
    - A JavaScript string is a [string] whose characters are its code units;
      the embedding covers texts whose code units are below 256, on which
      [toLowerCase] and [trim] act as written below.
    - An [async] method is a function on the [World]: the database tables,
      the shared [ModerationService] instance (whose [RegExp] objects carry
      their [lastIndex]) and the record of calls made to the language model.
    - Rows are kept newest first, so [ORDER BY created_at DESC] is the order
      of the list. Row ids produced by [gen_random_uuid()] are counter values.
    - A JavaScript number is the rational it denotes. Division,
      multiplication and subtraction are the exact operations followed by
      rounding to the nearest binary64 value, ties to even ([Float64]).
      Infinities and NaN are not represented; the numbers computed here are
      counts of rows and scores between 0 and 100.
    - Storage and the language model do not fail, except where the schema
      makes a write fail (a foreign key with no target). The compliance
      report takes the read of the audit log as a parameter, so that its
      [catch] path is covered. *)

From Stdlib Require Import List String Ascii Bool Arith Lia ZArith QArith Qround Qminmax Qabs
  Qpower Lqa DecimalString.
From Stdlib Require PrimFloat FloatOps SpecFloat Uint63.
Import ListNotations.
Local Close Scope Q_scope.
Local Open Scope string_scope.
Local Open Scope list_scope.

Set Implicit Arguments.

(** ** JavaScript strings *)

Module JsString.

Definition code (c : ascii) : nat := nat_of_ascii c.

Definition between (lo hi n : nat) : bool := (lo <=? n)%nat && (n <=? hi)%nat.

(** [String.prototype.toLowerCase], one code unit at a time. *)
Definition lowerChar (c : ascii) : ascii :=
  let n := code c in
  if between 65 90 n || (between 192 222 n && negb (n =? 215)%nat)
  then ascii_of_nat (n + 32)
  else c.

Fixpoint toLowerCase (s : string) : string :=
  match s with
  | EmptyString => EmptyString
  | String c s' => String (lowerChar c) (toLowerCase s')
  end.

(** White space and line terminators, as [trim] strips them. *)
Definition isWhiteSpace (c : ascii) : bool :=
  let n := code c in
  between 9 13 n || (n =? 32)%nat || (n =? 160)%nat.

Fixpoint trimStart (s : string) : string :=
  match s with
  | EmptyString => EmptyString
  | String c s' => if isWhiteSpace c then trimStart s' else s
  end.

Fixpoint trimEnd (s : string) : string :=
  match s with
  | EmptyString => EmptyString
  | String c s' =>
      match trimEnd s' with
      | EmptyString => if isWhiteSpace c then EmptyString else String c EmptyString
      | t => String c t
      end
  end.

Definition trim (s : string) : string := trimEnd (trimStart s).

Definition startsWith (s p : string) : bool := String.prefix p s.

Fixpoint includes (s sub : string) : bool :=
  String.prefix sub s ||
  match s with
  | EmptyString => false
  | String _ s' => includes s' sub
  end.

Definition endsWith (s suf : string) : bool :=
  (String.length suf <=? String.length s)%nat &&
  String.eqb (substring (String.length s - String.length suf) (String.length suf) s) suf.

(** [Array.prototype.includes] on an array of strings. *)
Definition arrayIncludes (xs : list string) (x : string) : bool :=
  existsb (String.eqb x) xs.

End JsString.

(** ** Regular expressions

  The fragment of the pattern language that the service's twelve patterns
  use, matched by backtracking in the order the language prescribes:
  alternatives left to right, [*] greedy. All patterns carry the flags
  [g] and [i]. *)

Module Regex.

Import JsString.

Inductive cset : Type :=
| CChar (c : ascii)   (* a literal character, compared ignoring case *)
| CDot                (* .  : anything but a line terminator *)
| CDigit.             (* \d *)

Inductive regex : Type :=
| Eps
| One (cs : cset)
| WordB               (* \b *)
| Seq (a b : regex)
| Alt (a b : regex)
| Star (cs : cset).   (* greedy repetition of a one-character atom *)

(** Canonicalisation under the [i] flag: ASCII letters to upper case; a code
    unit of 128 or more is never identified with an ASCII one. *)
Definition canonicalize (c : ascii) : ascii :=
  let n := code c in
  if between 97 122 n then ascii_of_nat (n - 32) else c.

Definition isLineTerminator (c : ascii) : bool :=
  let n := code c in (n =? 10)%nat || (n =? 13)%nat.

Definition isDigit (c : ascii) : bool := between 48 57 (code c).

Definition isWordChar (c : ascii) : bool :=
  let n := code c in
  between 97 122 n || between 65 90 n || between 48 57 n || (n =? 95)%nat.

Definition csetMatches (cs : cset) (x : ascii) : bool :=
  match cs with
  | CChar c => Ascii.eqb (canonicalize c) (canonicalize x)
  | CDot => negb (isLineTerminator x)
  | CDigit => isDigit x
  end.

Definition nextIsWord (l : list ascii) : bool :=
  match l with
  | [] => false
  | x :: _ => isWordChar x
  end.

(** The matcher reads the input left of the current position only through
    [p], whether the previous character is a word character. A successful
    match yields the input that remains after it. *)
Definition Cont : Type := bool -> list ascii -> option (list ascii).

Fixpoint starM (cs : cset) (p : bool) (l : list ascii) (k : Cont) : option (list ascii) :=
  match l with
  | x :: l' =>
      if csetMatches cs x then
        match starM cs (isWordChar x) l' k with
        | Some e => Some e
        | None => k p l
        end
      else k p l
  | [] => k p l
  end.

Fixpoint matchM (r : regex) (p : bool) (l : list ascii) (k : Cont) : option (list ascii) :=
  match r with
  | Eps => k p l
  | One cs =>
      match l with
      | x :: l' => if csetMatches cs x then k (isWordChar x) l' else None
      | [] => None
      end
  | WordB => if xorb p (nextIsWord l) then k p l else None
  | Seq a b => matchM a p l (fun p' l' => matchM b p' l' k)
  | Alt a b =>
      match matchM a p l k with
      | Some e => Some e
      | None => matchM b p l k
      end
  | Star cs => starM cs p l k
  end.

Definition matchHere (r : regex) (p : bool) (l : list ascii) : option (list ascii) :=
  matchM r p l (fun _ l' => Some l').

(** Try the current position, then every later one, the end included. *)
Fixpoint search (r : regex) (p : bool) (l : list ascii) : option (list ascii) :=
  match matchHere r p l with
  | Some e => Some e
  | None =>
      match l with
      | [] => None
      | x :: l' => search r (isWordChar x) l'
      end
  end.

(** Move to index [i] of the input; [None] when [i] is past the end. *)
Fixpoint seek (i : nat) (p : bool) (l : list ascii) : option (bool * list ascii) :=
  match i with
  | O => Some (p, l)
  | S i' =>
      match l with
      | [] => None
      | x :: l' => seek i' (isWordChar x) l'
      end
  end.

(** A [RegExp] object with the [g] flag: its source and its [lastIndex]. *)
Record RegExp : Type := mkRegExp { source : regex; lastIndex : nat }.

Definition fresh (r : regex) : RegExp := mkRegExp r 0.

(** [RegExp.prototype.test]: the search starts at [lastIndex]; a match
    leaves [lastIndex] at its end, a failure resets it to 0. *)
Definition test (re : RegExp) (s : string) : bool * RegExp :=
  let l := list_ascii_of_string s in
  match seek (lastIndex re) false l with
  | None => (false, mkRegExp (source re) 0)
  | Some (p, rest) =>
      match search (source re) p rest with
      | Some e => (true, mkRegExp (source re) (List.length l - List.length e))
      | None => (false, mkRegExp (source re) 0)
      end
  end.

(** Whether the pattern matches the text at all: [test] on a fresh object. *)
Definition matches (r : regex) (s : string) : bool :=
  match search r false (list_ascii_of_string s) with
  | Some _ => true
  | None => false
  end.

(** Building patterns. *)
Fixpoint lit (s : string) : regex :=
  match s with
  | EmptyString => Eps
  | String c EmptyString => One (CChar c)
  | String c s' => Seq (One (CChar c)) (lit s')
  end.

Fixpoint alts (r : regex) (rs : list regex) : regex :=
  match rs with
  | [] => r
  | r' :: rs' => Alt r (alts r' rs')
  end.

Definition words (w : string) (ws : list string) : regex :=
  alts (lit w) (map lit ws).

Definition seqs (rs : list regex) : regex := fold_right Seq Eps rs.

Definition dotStar : regex := Star CDot.

End Regex.

Import JsString Regex.

(** ** JavaScript numbers

    A finite [Number] is a binary64 value: [m * 2^e] with [|m| < 2^53] and
    [e >= -1074]. The result of an arithmetic operation is the exact result
    rounded to the nearest such value, ties to the one with an even [m]. *)

Module Float64.

Local Open Scope Q_scope.

Definition pow2 (e : Z) : Q := 2 ^ e.

(** The integer [l] with [2^l <= x < 2^(l+1)], for a positive [x]. *)
Definition log2floor (x : Q) : Z :=
  let l := (Z.log2 (Qnum x) - Z.log2 (Zpos (Qden x)))%Z in
  if Qle_bool (pow2 l) x then l else (l - 1)%Z.

(** The exponent of the unit in the last place of the values around [x]:
    53 significant bits, and the least exponent for the subnormal values. *)
Definition exponent (x : Q) : Z := Z.max (-1074) (log2floor (Qabs x) - 52).

(** The nearest integer, ties to even. *)
Definition roundHalfEven (q : Q) : Z :=
  let f := Qfloor q in
  match (q - inject_Z f ?= 1 # 2)%Q with
  | Lt => f
  | Gt => (f + 1)%Z
  | Eq => if Z.even f then f else (f + 1)%Z
  end.

Definition round (x : Q) : Q :=
  if Qeq_bool x 0 then 0
  else inject_Z (roundHalfEven (x / pow2 (exponent x))) * pow2 (exponent x).

(** [a / b], [a * b] and [a - b] on numbers. *)
Definition div (a b : Q) : Q := round (a / b).

Definition mul (a b : Q) : Q := round (a * b).

Definition sub (a b : Q) : Q := round (a - b).

End Float64.

(** ** Data model ([shared/schema.ts]) *)

Unset Elimination Schemes.
Inductive Json : Type :=
| JNull
| JBool (b : bool)
| JNum (q : Q)
| JStr (s : string)
| JDate (t : nat)
| JArr (xs : list Json)
| JObj (fields : list (string * Json)).
Set Elimination Schemes.

Record ConsentStatus : Type := mkConsent {
  ageAffirmed : bool;
  romanticContent : bool;
  timestamp : nat
}.

Record Fan : Type := mkFan {
  fan_id : string;
  handle : string;
  preferences : option (list (string * Json));
  spendTier : string;
  boundaries : option (list string);
  consentStatus : option ConsentStatus;
  fan_updatedAt : nat
}.

Record Persona : Type := mkPersona {
  persona_id : string;
  creatorId : string;
  persona_name : string;
  persona_isActive : bool
}.

Record Conversation : Type := mkConversation {
  conv_id : string;
  conv_fanId : string;
  conv_personaId : string;
  threadSummary : option string;
  sentiment : option string;
  lastMessageAt : option nat;
  conv_isActive : bool;
  conv_updatedAt : nat
}.

Record Message : Type := mkMessage {
  msg_id : string;
  conversationId : string;
  msg_type : string;
  content : string;
  sender : string;
  moderationStatus : string;
  sentAt : option nat;
  msg_createdAt : nat
}.

Record AuditLog : Type := mkAuditLog {
  al_id : string;
  al_action : string;
  entityType : string;
  entityId : string;
  al_userId : option string;
  al_fanId : option string;
  details : list (string * Json);
  al_createdAt : nat
}.

Inductive Severity : Type := low | medium | high | critical.

Definition severityName (s : Severity) : string :=
  match s with
  | low => "low" | medium => "medium" | high => "high" | critical => "critical"
  end.

Definition Severity_eqb (a b : Severity) : bool :=
  match a, b with
  | low, low | medium, medium | high, high | critical, critical => true
  | _, _ => false
  end.

Record ModerationQueue : Type := mkModerationQueue {
  mq_id : string;
  mq_content : string;
  flagReason : string;
  mq_severity : Severity;
  status : string;
  reviewedBy : option string;
  reviewedAt : option nat;
  mq_createdAt : nat
}.

(** ** The moderation verdict ([ModerationResult]) *)

Inductive Action : Type := allow | block | escalate | review.

Definition actionName (a : Action) : string :=
  match a with
  | allow => "allow" | block => "block" | escalate => "escalate" | review => "review"
  end.

Record ModerationResult : Type := mkResult {
  action : Action;
  reason : option string;
  severity : Severity;
  confidence : Q
}.

(** ** The shared moderation service: its three arrays of [RegExp] objects *)

Record ModerationService : Type := mkService {
  bannedPatterns : list RegExp;
  suspiciousPatterns : list RegExp;
  escalationPatterns : list RegExp
}.

Definition bannedSources : list regex :=
  [ seqs [WordB; words "fuck" ["shit"; "damn"; "bitch"]; WordB];
    seqs [WordB; words "meet" ["meetup"; "hotel"; "address"; "phone"]; WordB];
    seqs [WordB; words "under" ["kid"; "minor"; "teen"; "child"]; WordB; dotStar;
          WordB; words "18" ["years"; "age"]; WordB];
    seqs [WordB; words "suicide" ["kill"; "death"; "harm"]; WordB];
    seqs [WordB; words "drug" ["cocaine"; "heroin"; "meth"]; WordB] ].

Definition suspiciousSources : list regex :=
  [ seqs [WordB; words "daddy" ["baby"; "little"]; WordB];
    seqs [WordB; words "rape" ["force"; "non-consent"]; WordB];
    seqs [WordB; words "send" ["show"; "pics"; "nude"]; WordB; dotStar;
          WordB; words "free" ["no"; "without"]; WordB];
    seqs [One (CChar "$"); One CDigit; Star CDigit; dotStar;
          WordB; words "cash" ["paypal"; "venmo"]; WordB] ].

Definition escalationSources : list regex :=
  [ seqs [WordB;
          alts (lit "minor") [seqs [lit "under"; dotStar; lit "18"]; lit "underage"];
          WordB];
    seqs [WordB; words "kill" ["suicide"; "harm"; "violence"]; WordB];
    seqs [WordB; words "personal" ["real"; "actual"; "home"]; WordB; dotStar;
          WordB; words "address" ["location"; "meet"]; WordB] ].

(** [new ModerationService()]: every [lastIndex] is 0. *)
Definition newModerationService : ModerationService :=
  mkService (map fresh bannedSources) (map fresh suspiciousSources)
            (map fresh escalationSources).

(** ** The world: database tables, the service instance, the model's calls *)

Record World : Type := mkWorld {
  users : list string;
  personas : list Persona;
  fans : list Fan;
  conversations : list Conversation;
  messages : list Message;
  auditLogs : list AuditLog;
  moderationQueue : list ModerationQueue;
  nextId : nat;
  clock : nat;
  moderationService : ModerationService;
  llmCalls : list string
}.

Definition withFans (fs : list Fan) (w : World) : World :=
  mkWorld (users w) (personas w) fs (conversations w) (messages w) (auditLogs w)
          (moderationQueue w) (nextId w) (clock w) (moderationService w) (llmCalls w).

Definition withConversations (cs : list Conversation) (w : World) : World :=
  mkWorld (users w) (personas w) (fans w) cs (messages w) (auditLogs w)
          (moderationQueue w) (nextId w) (clock w) (moderationService w) (llmCalls w).

Definition withMessages (ms : list Message) (w : World) : World :=
  mkWorld (users w) (personas w) (fans w) (conversations w) ms (auditLogs w)
          (moderationQueue w) (nextId w) (clock w) (moderationService w) (llmCalls w).

Definition withAuditLogs (ls : list AuditLog) (w : World) : World :=
  mkWorld (users w) (personas w) (fans w) (conversations w) (messages w) ls
          (moderationQueue w) (nextId w) (clock w) (moderationService w) (llmCalls w).

Definition withModerationQueue (q : list ModerationQueue) (w : World) : World :=
  mkWorld (users w) (personas w) (fans w) (conversations w) (messages w) (auditLogs w)
          q (nextId w) (clock w) (moderationService w) (llmCalls w).

Definition withNextId (n : nat) (w : World) : World :=
  mkWorld (users w) (personas w) (fans w) (conversations w) (messages w) (auditLogs w)
          (moderationQueue w) n (clock w) (moderationService w) (llmCalls w).

Definition withModerationService (s : ModerationService) (w : World) : World :=
  mkWorld (users w) (personas w) (fans w) (conversations w) (messages w) (auditLogs w)
          (moderationQueue w) (nextId w) (clock w) s (llmCalls w).

Definition withLlmCalls (cs : list string) (w : World) : World :=
  mkWorld (users w) (personas w) (fans w) (conversations w) (messages w) (auditLogs w)
          (moderationQueue w) (nextId w) (clock w) (moderationService w) cs.

(** ** Asynchronous methods: state passing, with exceptions *)

Inductive Outcome (A : Type) : Type :=
| Returned (a : A)
| Thrown (error : string).

Arguments Thrown {A} error.

Definition Async (A : Type) : Type := World -> Outcome A * World.

Definition ret {A : Type} (a : A) : Async A := fun w => (Returned a, w).

Definition throw {A : Type} (error : string) : Async A := fun w => (Thrown error, w).

Definition bind {A B : Type} (m : Async A) (f : A -> Async B) : Async B :=
  fun w =>
    match m w with
    | (Returned a, w') => f a w'
    | (Thrown e, w') => (Thrown e, w')
    end.

Definition tryCatch {A : Type} (m : Async A) (handler : string -> Async A) : Async A :=
  fun w =>
    match m w with
    | (Returned a, w') => (Returned a, w')
    | (Thrown e, w') => handler e w'
    end.

Definition gets {A : Type} (f : World -> A) : Async A := fun w => (Returned (f w), w).

Definition modify (f : World -> World) : Async unit := fun w => (Returned tt, f w).

Declare Scope async_scope.
Delimit Scope async_scope with async.
Notation "x <- m ;; k" := (bind m (fun x => k))
  (at level 61, m at next level, right associativity) : async_scope.
Notation "m ;;; k" := (bind m (fun _ => k))
  (at level 61, right associativity) : async_scope.
Local Open Scope async_scope.

(** ** Storage ([server/storage.ts]) *)

(** The id the database generates for the [n]-th row it inserts. *)
Definition uuidOf (n : nat) : string := NilEmpty.string_of_uint (Nat.to_uint n).

Definition gen_random_uuid : Async string :=
  fun w => (Returned (uuidOf (nextId w)), withNextId (S (nextId w)) w).

(** A nullable foreign key is satisfied when absent or when its target exists. *)
Definition references (key : option string) (ids : list string) : bool :=
  match key with
  | None => true
  | Some k => existsb (String.eqb k) ids
  end.

Definition foreignKeyViolation : string := "violates foreign key constraint".

Definition getPersona (id : string) : Async (option Persona) :=
  gets (fun w => find (fun p => String.eqb (persona_id p) id) (personas w)).

Definition getFan (id : string) : Async (option Fan) :=
  gets (fun w => find (fun f => String.eqb (fan_id f) id) (fans w)).

(** [Partial<InsertFan>], for the fields the pipeline updates. *)
Record FanUpdates : Type := mkFanUpdates {
  set_boundaries : option (list string);
  set_preferences : option (list (string * Json));
  set_consentStatus : option ConsentStatus
}.

Definition orElse {A : Type} (new : option A) (old : option A) : option A :=
  match new with
  | Some a => Some a
  | None => old
  end.

Definition applyFanUpdates (u : FanUpdates) (now : nat) (f : Fan) : Fan :=
  mkFan (fan_id f) (handle f)
        (orElse (set_preferences u) (preferences f))
        (spendTier f)
        (orElse (set_boundaries u) (boundaries f))
        (orElse (set_consentStatus u) (consentStatus f))
        now.

Definition updateFan (id : string) (u : FanUpdates) : Async (option Fan) :=
  fun w =>
    let fs := map (fun f => if String.eqb (fan_id f) id
                            then applyFanUpdates u (clock w) f else f) (fans w) in
    (Returned (find (fun f => String.eqb (fan_id f) id) fs), withFans fs w).

Definition getConversationByFanAndPersona (fanId personaId : string)
  : Async (option Conversation) :=
  gets (fun w => find (fun c => String.eqb (conv_fanId c) fanId &&
                                String.eqb (conv_personaId c) personaId &&
                                conv_isActive c) (conversations w)).

Record InsertConversation : Type := mkInsertConversation {
  ic_fanId : string;
  ic_personaId : string;
  ic_threadSummary : option string;
  ic_sentiment : option string;
  ic_lastMessageAt : option nat
}.

Definition createConversation (c : InsertConversation) : Async Conversation :=
  okFan <- gets (fun w => references (Some (ic_fanId c)) (map fan_id (fans w)));;
  okPersona <- gets (fun w => references (Some (ic_personaId c)) (map persona_id (personas w)));;
  if okFan && okPersona then
    id <- gen_random_uuid;;
    now <- gets clock;;
    let row := mkConversation id (ic_fanId c) (ic_personaId c) (ic_threadSummary c)
                              (ic_sentiment c) (ic_lastMessageAt c) true now in
    modify (fun w => withConversations (row :: conversations w) w);;;
    ret row
  else throw foreignKeyViolation.

Definition updateConversation (id : string) (newLastMessageAt : option nat)
  (newSentiment : option string) : Async (option Conversation) :=
  fun w =>
    let cs := map (fun c => if String.eqb (conv_id c) id
                            then mkConversation (conv_id c) (conv_fanId c) (conv_personaId c)
                                   (threadSummary c) (orElse newSentiment (sentiment c))
                                   (orElse newLastMessageAt (lastMessageAt c))
                                   (conv_isActive c) (clock w)
                            else c) (conversations w) in
    (Returned (find (fun c => String.eqb (conv_id c) id) cs), withConversations cs w).

Record InsertMessage : Type := mkInsertMessage {
  im_conversationId : string;
  im_type : string;
  im_content : string;
  im_sender : string;
  im_sentAt : option nat
}.

Definition createMessage (m : InsertMessage) : Async Message :=
  ok <- gets (fun w => references (Some (im_conversationId m)) (map conv_id (conversations w)));;
  if ok then
    id <- gen_random_uuid;;
    now <- gets clock;;
    let row := mkMessage id (im_conversationId m) (im_type m) (im_content m) (im_sender m)
                         "approved" (im_sentAt m) now in
    modify (fun w => withMessages (row :: messages w) w);;;
    ret row
  else throw foreignKeyViolation.

Definition getConversationMessages (convId : string) (limit : nat) : Async (list Message) :=
  gets (fun w => firstn limit
                   (filter (fun m => String.eqb (conversationId m) convId) (messages w))).

Record InsertAuditLog : Type := mkInsertAuditLog {
  ia_action : string;
  ia_entityType : string;
  ia_entityId : string;
  ia_userId : option string;
  ia_fanId : option string;
  ia_details : list (string * Json)
}.

Definition createAuditLog (log : InsertAuditLog) : Async AuditLog :=
  okUser <- gets (fun w => references (ia_userId log) (users w));;
  okFan <- gets (fun w => references (ia_fanId log) (map fan_id (fans w)));;
  if okUser && okFan then
    id <- gen_random_uuid;;
    now <- gets clock;;
    let row := mkAuditLog id (ia_action log) (ia_entityType log) (ia_entityId log)
                          (ia_userId log) (ia_fanId log) (ia_details log) now in
    modify (fun w => withAuditLogs (row :: auditLogs w) w);;;
    ret row
  else throw foreignKeyViolation.

Record InsertModerationQueue : Type := mkInsertModerationQueue {
  iq_content : string;
  iq_flagReason : string;
  iq_severity : Severity;
  iq_status : string
}.

Definition createModerationQueue (item : InsertModerationQueue) : Async ModerationQueue :=
  id <- gen_random_uuid;;
  now <- gets clock;;
  let row := mkModerationQueue id (iq_content item) (iq_flagReason item) (iq_severity item)
                               (iq_status item) None None now in
  modify (fun w => withModerationQueue (row :: moderationQueue w) w);;;
  ret row.

(** [if (status)]: the filter applies when a status is given and is not the
    empty string. *)
Definition getModerationQueue (statusFilter : option string) : Async (list ModerationQueue) :=
  gets (fun w => match statusFilter with
                 | Some (String c rest) =>
                     filter (fun i => String.eqb (status i) (String c rest)) (moderationQueue w)
                 | _ => moderationQueue w
                 end).

(** [Partial<InsertModerationQueue>], for the fields the route sets; a field
    that is [undefined] in the request is left as it is. *)
Record ModerationQueueUpdates : Type := mkQueueUpdates {
  set_status : option string;
  set_reviewedBy : option string;
  set_reviewedAt : option nat
}.

Definition applyQueueUpdates (u : ModerationQueueUpdates) (i : ModerationQueue)
  : ModerationQueue :=
  mkModerationQueue (mq_id i) (mq_content i) (flagReason i) (mq_severity i)
    (match set_status u with Some st => st | None => status i end)
    (orElse (set_reviewedBy u) (reviewedBy i))
    (orElse (set_reviewedAt u) (reviewedAt i))
    (mq_createdAt i).

Definition updateModerationQueue (id : string) (u : ModerationQueueUpdates)
  : Async (option ModerationQueue) :=
  fun w =>
    let hit := existsb (fun i => String.eqb (mq_id i) id) (moderationQueue w) in
    if hit && negb (references (set_reviewedBy u) (users w))
    then (Thrown foreignKeyViolation, w)
    else
      let q := map (fun i => if String.eqb (mq_id i) id then applyQueueUpdates u i else i)
                   (moderationQueue w) in
      (Returned (find (fun i => String.eqb (mq_id i) id) q), withModerationQueue q w).

(** ** Audit service ([server/services/audit.ts]) *)

Definition logAction (act entType entId : string) (det : list (string * Json))
  (userId fanId : option string) : Async unit :=
  tryCatch
    (createAuditLog (mkInsertAuditLog act entType entId userId fanId det);;;
     ret tt)
    (fun _ => ret tt).

Definition moderationResultJson (r : ModerationResult) : Json :=
  JObj (("action", JStr (actionName (action r))) ::
        match reason r with
        | Some why => [("reason", JStr why)]
        | None => []
        end ++
        [("severity", JStr (severityName (severity r)));
         ("confidence", JNum (confidence r))]).

Definition logConversation (convId messageId aiResponse fanMessage : string)
  (moderationResult : ModerationResult) : Async unit :=
  now <- gets clock;;
  logAction "ai_conversation" "conversation" convId
    [("messageId", JStr messageId);
     ("aiResponse", JStr (substring 0 200 aiResponse));
     ("fanMessage", JStr (substring 0 200 fanMessage));
     ("moderationResult", moderationResultJson moderationResult);
     ("timestamp", JDate now)]
    None None.

Definition logModerationAction (messageId act why sev : string)
  (reviewer : option string) : Async unit :=
  now <- gets clock;;
  logAction "moderation_action" "message" messageId
    ([("action", JStr act); ("reason", JStr why); ("severity", JStr sev)] ++
     match reviewer with
     | Some r => [("reviewedBy", JStr r)]
     | None => []
     end ++
     [("timestamp", JDate now)])
    reviewer None.

Definition logFanInteraction (fanId interactionType : string)
  (det : list (string * Json)) : Async unit :=
  now <- gets clock;;
  logAction "fan_interaction" "fan" fanId
    ([("interactionType", JStr interactionType)] ++ det ++ [("timestamp", JDate now)])
    None (Some fanId).

(** ** Moderation service ([server/services/moderation.ts]) *)

(** [for (const pattern of patterns) if (pattern.test(content)) ...]: the
    patterns are tested in order up to the first hit; every pattern tested has
    its [lastIndex] updated, the ones after the hit are not touched. *)
Fixpoint testAny (ps : list RegExp) (s : string) : bool * list RegExp :=
  match ps with
  | [] => (false, [])
  | re :: rest =>
      let (hit, re') := test re s in
      if hit then (true, re' :: rest)
      else let (hit', rest') := testAny rest s in (hit', re' :: rest')
  end.

Definition testEscalationPatterns (text : string) : Async bool :=
  fun w =>
    let svc := moderationService w in
    let (hit, ps) := testAny (escalationPatterns svc) text in
    (Returned hit,
     withModerationService (mkService (bannedPatterns svc) (suspiciousPatterns svc) ps) w).

Definition testBannedPatterns (text : string) : Async bool :=
  fun w =>
    let svc := moderationService w in
    let (hit, ps) := testAny (bannedPatterns svc) text in
    (Returned hit,
     withModerationService (mkService ps (suspiciousPatterns svc) (escalationPatterns svc)) w).

Definition testSuspiciousPatterns (text : string) : Async bool :=
  fun w =>
    let svc := moderationService w in
    let (hit, ps) := testAny (suspiciousPatterns svc) text in
    (Returned hit,
     withModerationService (mkService (bannedPatterns svc) ps (escalationPatterns svc)) w).

Definition logToModerationQueue (text why : string) (sev : Severity) : Async unit :=
  tryCatch
    (createModerationQueue (mkInsertModerationQueue text why sev "pending");;;
     ret tt)
    (fun _ => ret tt).

Definition moderateMessage (text : string) (fanId : option string) : Async ModerationResult :=
  hitEscalation <- testEscalationPatterns text;;
  if hitEscalation : bool then
    logToModerationQueue text "escalation_pattern" critical;;;
    ret (mkResult escalate (Some "Content matches critical violation pattern") critical 0.95%Q)
  else
    hitBanned <- testBannedPatterns text;;
    if hitBanned : bool then
      logToModerationQueue text "banned_pattern" high;;;
      ret (mkResult block (Some "Content matches banned pattern") high 0.9%Q)
    else
      hitSuspicious <- testSuspiciousPatterns text;;
      if hitSuspicious : bool then
        logToModerationQueue text "suspicious_pattern" medium;;;
        ret (mkResult review (Some "Content matches suspicious pattern") medium 0.7%Q)
      else if (String.length text <? 3)%nat then
        ret (mkResult allow None low 0.8%Q)
      else
        ret (mkResult allow None low 0.95%Q).

Definition checkConsentGate (fanId : string) : Async bool :=
  tryCatch
    (fan <- getFan fanId;;
     match fan with
     | None => ret false
     | Some f =>
         ret match consentStatus f with
             | Some consent => ageAffirmed consent && romanticContent consent
             | None => false
             end
     end)
    (fun _ => ret false).

Definition stopWords : list string := ["stop"; "unsubscribe"; "no"; "quit"; "end"; "block"].

Definition checkStopWords (text : string) : bool :=
  let normalizedContent := trim (toLowerCase text) in
  existsb (fun word =>
             String.eqb normalizedContent word ||
             includes normalizedContent (" " ++ word ++ " ") ||
             startsWith normalizedContent (word ++ " ") ||
             endsWith normalizedContent (" " ++ word))
          stopWords.

Definition escalateMessage (text why : string) (fanId : option string) : Async unit :=
  logToModerationQueue text ("ESCALATED: " ++ why) critical.

(** [Math.round]: the nearest integer, halves upwards. The result is an
    integer, which is a binary64 value at the magnitudes that occur here. *)
Definition mathRound (x : Q) : Q := inject_Z (Qfloor (x + (1 # 2))%Q).

(** A count of rows as a number. Counts and [blocked + escalated * 2] are
    integers far below [2^53], on which the arithmetic of numbers is exact. *)
Definition ofNat (n : nat) : Q := inject_Z (Z.of_nat n).

Definition complianceScore (total blocked escalated : nat) : Q :=
  if (total =? 0)%nat then 100%Q
  else
    let violationRate := Float64.div (ofNat (blocked + escalated * 2)) (ofNat total) in
    let score := Qmax 0 (Float64.sub 100 (Float64.mul violationRate 100)) in
    Float64.div (mathRound (Float64.mul score 10)) 10.

(** The same arithmetic on the binary64 numbers of the kernel, operation by
    operation as the method has it; the rounding of [Float64] is compared
    with it. [Math.round] is taken on the exact value of its argument. *)
Module Binary64.

Definition ofCount (n : nat) : PrimFloat.float :=
  PrimFloat.of_uint63 (Uint63.of_Z (Z.of_nat n)).

(** The rational a finite number denotes. *)
Definition toQ (x : PrimFloat.float) : option Q :=
  match FloatOps.Prim2SF x with
  | SpecFloat.S754_zero _ => Some 0%Q
  | SpecFloat.S754_finite s m e =>
      Some ((if s then - (1) else 1) * inject_Z (Zpos m) * Float64.pow2 e)%Q
  | _ => None
  end.

Definition mathRound (x : PrimFloat.float) : PrimFloat.float :=
  match toQ x with
  | Some q => PrimFloat.of_uint63 (Uint63.of_Z (Qfloor (q + (1 # 2))%Q))
  | None => x
  end.

Definition mathMax0 (x : PrimFloat.float) : PrimFloat.float :=
  if PrimFloat.ltb x (ofCount 0) then ofCount 0 else x.

Definition complianceScore (total blocked escalated : nat) : PrimFloat.float :=
  if (total =? 0)%nat then ofCount 100
  else
    let violationRate :=
      PrimFloat.div (PrimFloat.add (ofCount blocked) (PrimFloat.mul (ofCount escalated) (ofCount 2)))
                    (ofCount total) in
    let score :=
      mathMax0 (PrimFloat.sub (ofCount 100) (PrimFloat.mul violationRate (ofCount 100))) in
    PrimFloat.div (mathRound (PrimFloat.mul score (ofCount 10))) (ofCount 10).

End Binary64.

Definition getComplianceScore : Async Q :=
  tryCatch
    (queue <- getModerationQueue None;;
     let total := List.length queue in
     let blocked := List.length (filter (fun item => String.eqb (status item) "blocked") queue) in
     let escalated :=
       List.length (filter (fun item => Severity_eqb (mq_severity item) critical) queue) in
     ret (complianceScore total blocked escalated))
    (fun _ => ret 98%Q).

Definition processStopRequest (fanId : string) : Async unit :=
  tryCatch
    (updateFan fanId (mkFanUpdates (Some ["stop_all_messages"])
                                   (Some [("opted_out", JBool true)]) None);;;
     createAuditLog (mkInsertAuditLog "stop_request" "fan" fanId None None
                                      [("reason", JStr "user_requested_stop")]);;;
     ret tt)
    (fun _ => ret tt).

(** ** Language-model service ([server/services/llm.ts])

    The model is an external collaborator: what it answers is a parameter.
    Each call to it is recorded in the world. *)

Record ToolCall : Type := mkToolCall { tool_type : string; tool_data : Json }.

Record AIResponse : Type := mkAIResponse {
  ai_message : string;
  toolCalls : list ToolCall
}.

Record ChatContext : Type := mkChatContext {
  ctx_persona : Persona;
  ctx_fan : Fan;
  recentMessages : list Message;
  ctx_threadSummary : option string
}.

Record LLMService : Type := mkLLMService {
  respond : ChatContext -> string -> AIResponse;
  classifySentiment : string -> string
}.

Definition generateResponseTag : string := "generateResponse".
Definition analyzeSentimentTag : string := "analyzeSentiment".

Definition generateResponse (llm : LLMService) (ctx : ChatContext) (userMessage : string)
  : Async AIResponse :=
  modify (fun w => withLlmCalls (generateResponseTag :: llmCalls w) w);;;
  ret (respond llm ctx userMessage).

Definition analyzeSentiment (llm : LLMService) (text : string) : Async string :=
  modify (fun w => withLlmCalls (analyzeSentimentTag :: llmCalls w) w);;;
  ret (classifySentiment llm text).

(** ** Routes ([server/routes.ts]) *)

(** The replies of [POST /api/ai/reply], one per [res.json] of the handler. *)
Inductive ReplyResponse : Type :=
| Blocked (why : option string)
| Escalated
| StopProcessed
| NotFound
| ConsentRequired
| Responded (text : string) (actions : list Json) (convId messageId : string)
| InternalError.

Definition statusCode (r : ReplyResponse) : nat :=
  match r with
  | Blocked _ | Escalated => 400
  | NotFound => 404
  | InternalError => 500
  | StopProcessed | ConsentRequired | Responded _ _ _ _ => 200
  end.

(** The two fixed replies; they are only ever returned, never inspected. *)
Definition stopAcknowledgment : string :=
  "I understand you'd like to stop our conversations. You've been unsubscribed. Take care! 💕".

Definition consentRequestPrompt : string :=
  "Before we chat, I need to confirm you're 18+ and okay with receiving romantic messages. Are you over 18 and interested in flirty conversation? 💕".

Definition replyMessage (r : ReplyResponse) : string :=
  match r with
  | Blocked _ => "Message blocked by moderation system"
  | Escalated => "Message flagged for review"
  | StopProcessed => stopAcknowledgment
  | NotFound => "Persona or fan not found"
  | ConsentRequired => consentRequestPrompt
  | Responded text _ _ _ => text
  | InternalError => "Internal server error"
  end.

Definition replyAction (r : ReplyResponse) : option string :=
  match r with
  | StopProcessed => Some "stop_processed"
  | ConsentRequired => Some "consent_required"
  | _ => None
  end.

Definition Action_eqb (a b : Action) : bool :=
  match a, b with
  | allow, allow | block, block | escalate, escalate | review, review => true
  | _, _ => false
  end.

Definition orEmpty (s : option string) : string :=
  match s with
  | Some x => x
  | None => ""
  end.

(** [conversation.threadSummary || undefined] *)
Definition truthyString (s : option string) : option string :=
  match s with
  | Some EmptyString => None
  | other => other
  end.

(** The tool-call dispatch reads [this.processOfferMenu] and its two
    siblings inside [registerRoutes], a plain function of a module, where
    [this] is [undefined]: a call of one of these three types throws. Any
    other type maps to [null], which [filter(Boolean)] drops. *)
Definition dispatchedThroughThis (t : ToolCall) : bool :=
  String.eqb (tool_type t) "offer_menu" ||
  String.eqb (tool_type t) "create_payment_link" ||
  String.eqb (tool_type t) "send_media".

Definition processToolCalls (calls : list ToolCall) : Async (list Json) :=
  if existsb dispatchedThroughThis calls
  then throw "TypeError: Cannot read properties of undefined"
  else ret [].

(** [POST /api/ai/reply], from the message history to the end of the [try]
    block: generation of the reply, persistence of both messages, the audit
    entry and the tool calls. *)
Definition respondInConversation (llm : LLMService) (persona : Persona) (fan : Fan)
  (conversation : Conversation) (message : string) (moderationResult : ModerationResult)
  : Async ReplyResponse :=
  recent <- getConversationMessages (conv_id conversation) 10;;
  aiResponse <-
    generateResponse llm
      (mkChatContext persona fan recent (truthyString (threadSummary conversation)))
      message;;
  now <- gets clock;;
  createMessage (mkInsertMessage (conv_id conversation) "text" message "fan" (Some now));;;
  aiMessage <-
    createMessage (mkInsertMessage (conv_id conversation) "text"
                                   (ai_message aiResponse) "ai" (Some now));;
  newSentiment <- analyzeSentiment llm message;;
  updateConversation (conv_id conversation) (Some now) (Some newSentiment);;;
  logConversation (conv_id conversation) (msg_id aiMessage) (ai_message aiResponse)
                  message moderationResult;;;
  processedActions <- processToolCalls (toolCalls aiResponse);;
  ret (Responded (ai_message aiResponse) processedActions
                 (conv_id conversation) (msg_id aiMessage)).

(** [POST /api/ai/reply], from the stop-word check to the conversation
    lookup: what the handler does once moderation has neither blocked nor
    escalated the message. *)
Definition replyAfterModeration (llm : LLMService) (fanId personaId message : string)
  (moderationResult : ModerationResult) : Async ReplyResponse :=
  if checkStopWords message then
    processStopRequest fanId;;;
    ret StopProcessed
  else
    persona <- getPersona personaId;;
    fan <- getFan fanId;;
    match persona, fan with
    | Some persona, Some fan =>
        consented <- checkConsentGate fanId;;
        if negb consented then ret ConsentRequired
        else
          existing <- getConversationByFanAndPersona fanId personaId;;
          conversation <-
            match existing with
            | Some c => ret c
            | None =>
                now <- gets clock;;
                createConversation
                  (mkInsertConversation fanId personaId (Some "") (Some "neutral") (Some now))
            end;;
          respondInConversation llm persona fan conversation message moderationResult
    | _, _ => ret NotFound
    end.

(** [POST /api/ai/reply] *)
Definition postAiReply (llm : LLMService) (fanId personaId message : string)
  : Async ReplyResponse :=
  tryCatch
    (moderationResult <- moderateMessage message (Some fanId);;
     if Action_eqb (action moderationResult) block then
       logModerationAction "" "block" (orEmpty (reason moderationResult))
                           (severityName (severity moderationResult)) None;;;
       ret (Blocked (reason moderationResult))
     else if Action_eqb (action moderationResult) escalate then
       escalateMessage message (orEmpty (reason moderationResult)) (Some fanId);;;
       ret Escalated
     else
       replyAfterModeration llm fanId personaId message moderationResult)
    (fun _ => ret InternalError).

(** [POST /api/consent/affirm] *)
Inductive ConsentResponse : Type :=
| ConsentRecorded (consent : ConsentStatus)
| ConsentRejected (error : string).

Definition postConsentAffirm (fanId : string) (affirmations : list string)
  : Async ConsentResponse :=
  tryCatch
    (now <- gets clock;;
     let consent :=
       mkConsent (arrayIncludes affirmations "I am 18+")
                 (arrayIncludes affirmations "I consent to romantic messages")
                 now in
     updateFan fanId (mkFanUpdates None None (Some consent));;;
     logFanInteraction fanId "consent_affirmed"
                       [("affirmations", JArr (map JStr affirmations))];;;
     ret (ConsentRecorded consent))
    (fun e => ret (ConsentRejected e)).

(** [PUT /api/moderation/queue/:id] *)
Inductive QueueResponse : Type :=
| QueueItem (item : option ModerationQueue)
| QueueRejected (error : string).

Definition putModerationQueue (id : string) (newStatus reviewer : option string)
  : Async QueueResponse :=
  tryCatch
    (now <- gets clock;;
     item <- updateModerationQueue id (mkQueueUpdates newStatus reviewer (Some now));;
     ret (QueueItem item))
    (fun e => ret (QueueRejected e)).

(** * Vocabulary of the statements *)

(** The action the classifier returns for a text, in the state the shared
    service instance is in. *)
Definition classifierVerdict (text : string) (w : World) : option Action :=
  match fst (moderateMessage text None w) with
  | Returned r => Some (action r)
  | Thrown _ => None
  end.

(** A service instance holds the twelve patterns of the class, whatever the
    [lastIndex] of each. *)
Definition instancePatterns (svc : ModerationService) : Prop :=
  map source (bannedPatterns svc) = bannedSources /\
  map source (suspiciousPatterns svc) = suspiciousSources /\
  map source (escalationPatterns svc) = escalationSources.

(** Whether a text matches some pattern of a tier, a property of the text. *)
Definition matchesTier (tier : list regex) (text : string) : bool :=
  existsb (fun r => matches r text) tier.

Definition matchesNoTier (text : string) : bool :=
  negb (matchesTier escalationSources text) &&
  negb (matchesTier bannedSources text) &&
  negb (matchesTier suspiciousSources text).

(** Full consent, as the gate reads it off a fan record. *)
Definition isConsented (f : Fan) : bool :=
  match consentStatus f with
  | Some consent => ageAffirmed consent && romanticContent consent
  | None => false
  end.

Definition findFan (id : string) (w : World) : option Fan :=
  find (fun f => String.eqb (fan_id f) id) (fans w).

Definition findPersona (id : string) (w : World) : option Persona :=
  find (fun p => String.eqb (persona_id p) id) (personas w).

Definition findQueueItem (id : string) (w : World) : option ModerationQueue :=
  find (fun i => String.eqb (mq_id i) id) (moderationQueue w).

(** An operation leaves an observation of the world as it was. *)
Definition preserves {A X : Type} (obs : World -> X) (m : Async A) : Prop :=
  forall w, obs (snd (m w)) = obs w.

(** The row [createModerationQueue] inserts in world [w]. *)
Definition queuedItem (w : World) (text why : string) (sev : Severity) : ModerationQueue :=
  mkModerationQueue (uuidOf (nextId w)) text why sev "pending" None None (clock w).

Definition countBlocked (q : list ModerationQueue) : nat :=
  List.length (filter (fun item => String.eqb (status item) "blocked") q).

Definition countCritical (q : list ModerationQueue) : nat :=
  List.length (filter (fun item => Severity_eqb (mq_severity item) critical) q).

(** The score as the specification words it: exact, without rounding. *)
Definition specScore (total blocked escalated : nat) : Q :=
  if (total =? 0)%nat then 100%Q
  else (100 - Qmin 100 (100 * ofNat (blocked + 2 * escalated) / ofNat total))%Q.

(** Whether the score computed with [Float64] is the one computed on the
    binary64 numbers of the kernel, for all queues of up to [n] items. *)
Definition sameScore (total blocked escalated : nat) : bool :=
  match Binary64.toQ (Binary64.complianceScore total blocked escalated) with
  | Some q => Qeq_bool q (complianceScore total blocked escalated)
  | None => false
  end.

Definition sameScoresUpTo (n : nat) : bool :=
  forallb (fun total =>
             forallb (fun blocked =>
                        forallb (sameScore total blocked) (seq 0 (S total)))
                     (seq 0 (S total)))
          (seq 0 (S n)).

(** The arithmetic that [getComplianceScore] and [generateComplianceReport]
    both perform on a number of violations and a total that is not 0. *)
Definition decimalScore (violations total : nat) : Q :=
  Float64.div
    (mathRound
       (Float64.mul
          (Qmax 0 (Float64.sub 100
                     (Float64.mul (Float64.div (ofNat violations) (ofNat total)) 100)))
          10))
    10.

(** The world after [logToModerationQueue]. *)
Definition enqueue (text why : string) (sev : Severity) (w : World) : World :=
  withModerationQueue (queuedItem w text why sev :: moderationQueue w)
                      (withNextId (S (nextId w)) w).

(** The verdicts of [moderateMessage]. *)
Definition escalateVerdict : ModerationResult :=
  mkResult escalate (Some "Content matches critical violation pattern") critical 0.95%Q.

Definition blockVerdict : ModerationResult :=
  mkResult block (Some "Content matches banned pattern") high 0.9%Q.

Definition reviewVerdict : ModerationResult :=
  mkResult review (Some "Content matches suspicious pattern") medium 0.7%Q.

Definition allowVerdict (text : string) : ModerationResult :=
  mkResult allow None low (if (String.length text <? 3)%nat then 0.8%Q else 0.95%Q).

(** Every [lastIndex] of the instance back at 0. *)
Definition resetService (svc : ModerationService) : ModerationService :=
  mkService (map (fun re => fresh (source re)) (bannedPatterns svc))
            (map (fun re => fresh (source re)) (suspiciousPatterns svc))
            (map (fun re => fresh (source re)) (escalationPatterns svc)).

(** The row [createAuditLog] inserts in world [w], and the world after it. *)
Definition auditRow (w : World) (log : InsertAuditLog) : AuditLog :=
  mkAuditLog (uuidOf (nextId w)) (ia_action log) (ia_entityType log) (ia_entityId log)
             (ia_userId log) (ia_fanId log) (ia_details log) (clock w).

Definition logged (log : InsertAuditLog) (w : World) : World :=
  withAuditLogs (auditRow w log :: auditLogs w) (withNextId (S (nextId w)) w).

Definition blockAudit (w : World) : InsertAuditLog :=
  mkInsertAuditLog "moderation_action" "message" "" None None
    [("action", JStr "block"); ("reason", JStr "Content matches banned pattern");
     ("severity", JStr "high"); ("timestamp", JDate (clock w))].

Definition stopAudit (fanId : string) : InsertAuditLog :=
  mkInsertAuditLog "stop_request" "fan" fanId None None
                   [("reason", JStr "user_requested_stop")].

(** A fan record after a stop request processed at time [now]. *)
Definition optedOut (now : nat) (f : Fan) : Fan :=
  mkFan (fan_id f) (handle f) (Some [("opted_out", JBool true)]) (spendTier f)
        (Some ["stop_all_messages"]) (consentStatus f) now.

Definition stopped (fanId : string) (w : World) : World :=
  logged (stopAudit fanId)
         (withFans (map (fun f => if String.eqb (fan_id f) fanId
                                  then optedOut (clock w) f else f) (fans w)) w).

(** The rows [createMessage] and [createConversation] insert in world [w]. *)
Definition messageRow (w : World) (m : InsertMessage) : Message :=
  mkMessage (uuidOf (nextId w)) (im_conversationId m) (im_type m) (im_content m)
            (im_sender m) "approved" (im_sentAt m) (clock w).

Definition conversationRow (w : World) (c : InsertConversation) : Conversation :=
  mkConversation (uuidOf (nextId w)) (ic_fanId c) (ic_personaId c) (ic_threadSummary c)
                 (ic_sentiment c) (ic_lastMessageAt c) true (clock w).

(** The conversation a turn of the reply handler continues in world [w]: the
    active one of the fan with the persona, or else the one it opens. *)
Definition conversationOfTurn (fanId personaId : string) (w : World) : Conversation :=
  match find (fun c => String.eqb (conv_fanId c) fanId &&
                       String.eqb (conv_personaId c) personaId &&
                       conv_isActive c) (conversations w) with
  | Some c => c
  | None =>
      conversationRow w (mkInsertConversation fanId personaId (Some "") (Some "neutral")
                                              (Some (clock w)))
  end.

(** The context the reply handler passes to the language model: the
    persona, the fan record, the ten newest messages of the conversation and
    its summary. *)
Definition chatContext (p : Persona) (f : Fan) (c : Conversation) (w : World) : ChatContext :=
  mkChatContext p f
    (firstn 10 (filter (fun m => String.eqb (conversationId m) (conv_id c)) (messages w)))
    (truthyString (threadSummary c)).

(** The verdicts of [n] successive calls of the classifier on one text. *)
Fixpoint successiveVerdicts (n : nat) (text : string) (w : World) : list (option Action) :=
  match n with
  | O => []
  | S n' =>
      classifierVerdict text w ::
      successiveVerdicts n' text (snd (moderateMessage text None w))
  end.

(** What the tiers prescribe for a text, as a function of the text alone. *)
Definition tierVerdict (text : string) : ModerationResult :=
  if matchesTier escalationSources text then escalateVerdict
  else if matchesTier bannedSources text then blockVerdict
  else if matchesTier suspiciousSources text then reviewVerdict
  else allowVerdict text.

(** The least number of characters a match of a pattern spans. *)
Fixpoint minLength (r : regex) : nat :=
  match r with
  | Eps | WordB | Star _ => 0
  | One _ => 1
  | Seq a b => minLength a + minLength b
  | Alt a b => Nat.min (minLength a) (minLength b)
  end.

(** ** Scenarios *)

Definition cannedModel : LLMService :=
  mkLLMService (fun _ _ => mkAIResponse "hi there" []) (fun _ => "neutral").

Definition emptyWorld : World :=
  mkWorld [] [] [] [] [] [] [] 0 0 newModerationService [].

Definition ava : Persona := mkPersona "p1" "u1" "Ava" true.

Definition consentedFan : Fan :=
  mkFan "f1" "@sam" (Some [("lang", JStr "en")]) "regular" (Some ["no politics"])
        (Some (mkConsent true true 3)) 3.

Definition newFan : Fan :=
  mkFan "f2" "@kim" None "free" None None 1.

Definition demoWorld : World :=
  mkWorld ["u1"] [ava] [consentedFan; newFan] [] [] [] [] 0 10 newModerationService [].

Definition flaggedItem (id st : string) (sev : Severity) : ModerationQueue :=
  mkModerationQueue id "flagged text" "banned_pattern" sev st None None 5.

Definition reviewWorld : World :=
  mkWorld ["u1"] [] [] [] [] [] [flaggedItem "q1" "pending" high] 1 20
          newModerationService [].

Definition threeItemsOneBlocked : World :=
  mkWorld ["u1"] [] [] [] [] []
          [flaggedItem "q3" "pending" high; flaggedItem "q2" "blocked" high;
           flaggedItem "q1" "approved" medium]
          3 20 newModerationService [].

Definition threeItemsTwoBlocked : World :=
  mkWorld ["u1"] [] [] [] [] []
          [flaggedItem "q3" "blocked" high; flaggedItem "q2" "blocked" high;
           flaggedItem "q1" "approved" medium]
          3 20 newModerationService [].

(** * The rest of the audit service and the routes that read the tables *)

(** A string argument counts as given when it is neither [undefined] nor
    empty. *)
Definition truthy (s : option string) : bool :=
  match s with
  | Some (String _ _) => true
  | _ => false
  end.

(** [a || d] on an optional string. *)
Definition orDefault (d : string) (s : option string) : string :=
  match s with
  | Some (String c rest) => String c rest
  | _ => d
  end.

(** A field of a JSON object; a key written twice keeps its last value. *)
Fixpoint jsonField (key : string) (fields : list (string * Json)) : option Json :=
  match fields with
  | [] => None
  | (k, v) :: rest =>
      match jsonField key rest with
      | Some later => Some later
      | None => if String.eqb k key then Some v else None
      end
  end.

(** [value === text] for a JSON value and a string. *)
Definition jsonIsString (value : option Json) (text : string) : bool :=
  match value with
  | Some (JStr s) => String.eqb s text
  | _ => false
  end.

(** [DatabaseStorage.getAuditLogs] *)
Definition getAuditLogs (byType byId : option string) : Async (list AuditLog) :=
  gets (fun w =>
          if truthy byType && truthy byId then
            filter (fun l => String.eqb (entityType l) (orEmpty byType) &&
                             String.eqb (entityId l) (orEmpty byId)) (auditLogs w)
          else if truthy byType then
            filter (fun l => String.eqb (entityType l) (orEmpty byType)) (auditLogs w)
          else auditLogs w).

(** [AuditService.logPayment] *)
Definition logPayment (paymentId fanId : string) (amountCents : Z) (productType st : string)
  : Async unit :=
  now <- gets clock;;
  logAction "payment_event" "payment" paymentId
    [("fanId", JStr fanId); ("amountCents", JNum (inject_Z amountCents));
     ("productType", JStr productType); ("status", JStr st); ("timestamp", JDate now)]
    None (Some fanId).

(** [AuditService.getAuditTrail] *)
Definition getAuditTrail (byType byId : string) (limit : nat) : Async (list AuditLog) :=
  tryCatch
    (logs <- getAuditLogs (Some byType) (Some byId);;
     ret (firstn limit logs))
    (fun _ => ret []).

(** [AuditService.generateComplianceReport] *)
Record ComplianceReport : Type := mkComplianceReport {
  totalInteractions : nat;
  moderatedMessages : nat;
  blockedMessages : nat;
  escalations : nat;
  reportScore : Q;
  keyEvents : list AuditLog
}.

Definition isModerationOf (kind : string) (l : AuditLog) : bool :=
  String.eqb (al_action l) "moderation_action" &&
  jsonIsString (jsonField "action" (details l)) kind.

(** The method with the storage call it makes, [storage.getAuditLogs()], as
    a parameter: the [catch] path is the one of a read that fails. *)
Definition generateComplianceReportFrom (getLogs : Async (list AuditLog))
  (creator : string) (startDate endDate : nat) : Async ComplianceReport :=
  tryCatch
    (logs <- getLogs;;
     let relevantLogs :=
       filter (fun l => (startDate <=? al_createdAt l)%nat &&
                        (al_createdAt l <=? endDate)%nat &&
                        (match al_userId l with
                         | Some u => String.eqb u creator
                         | None => false
                         end ||
                         jsonIsString (jsonField "creatorId" (details l)) creator))
              logs in
     let total :=
       List.length (filter (fun l => String.eqb (al_action l) "ai_conversation") relevantLogs) in
     let moderated :=
       List.length (filter (fun l => String.eqb (al_action l) "moderation_action") relevantLogs) in
     let blocked := List.length (filter (isModerationOf "block") relevantLogs) in
     let escalated := List.length (filter (isModerationOf "escalate") relevantLogs) in
     let score :=
       if (0 <? total)%nat
       then
         let violationRate := Float64.div (ofNat (blocked + escalated * 2)) (ofNat total) in
         Qmax 0 (Float64.sub 100 (Float64.mul violationRate 100))
       else 100%Q in
     let events :=
       firstn 20
         (filter (fun l => arrayIncludes ["moderation_action"; "payment_event"; "stop_request"]
                                         (al_action l))
                 relevantLogs) in
     ret (mkComplianceReport total moderated blocked escalated
                             (Float64.div (mathRound (Float64.mul score 10)) 10) events))
    (fun _ => ret (mkComplianceReport 0 0 0 0 0%Q [])).

Definition generateComplianceReport (creator : string) (startDate endDate : nat)
  : Async ComplianceReport :=
  generateComplianceReportFrom (getAuditLogs None None) creator startDate endDate.

(** The payment intent of a Stripe event, as far as the handlers read it. *)
Record PaymentIntent : Type := mkPaymentIntent {
  pi_id : string;
  pi_amount : Z;
  pi_fanId : option string;
  pi_productType : option string
}.

(** [handlePaymentSuccess] of [registerRoutes] *)
Definition handlePaymentSuccess (paymentIntent : PaymentIntent) : Async unit :=
  tryCatch
    (payments <- getAuditLogs (Some "payment") (Some (pi_id paymentIntent));;
     if (List.length payments =? 0)%nat then ret tt
     else
       logPayment (pi_id paymentIntent) (orDefault "" (pi_fanId paymentIntent))
                  (pi_amount paymentIntent)
                  (orDefault "unknown" (pi_productType paymentIntent)) "completed")
    (fun _ => ret tt).

(** [handlePaymentFailed] of [registerRoutes] *)
Definition handlePaymentFailed (paymentIntent : PaymentIntent) : Async unit :=
  tryCatch
    (logPayment (pi_id paymentIntent) (orDefault "" (pi_fanId paymentIntent))
                (pi_amount paymentIntent)
                (orDefault "unknown" (pi_productType paymentIntent)) "failed")
    (fun _ => ret tt).

(** [GET /api/analytics/safety] *)
Inductive SafetyResponse : Type :=
| SafetyReport (score : Q) (pendingReviews totalModerated : nat)
| SafetyError (error : string).

Definition getAnalyticsSafety : Async SafetyResponse :=
  tryCatch
    (score <- getComplianceScore;;
     queue <- getModerationQueue (Some "pending");;
     everything <- getModerationQueue None;;
     ret (SafetyReport score (List.length queue) (List.length everything)))
    (fun e => ret (SafetyError e)).

(** ** Vocabulary of the further statements *)

(** An operation only adds rows at the head of a table, each with property [P]. *)
Definition grows {A X : Type} (table : World -> list X) (P : X -> Prop) (m : Async A) : Prop :=
  forall w, exists new, table (snd (m w)) = new ++ table w /\ Forall P new.

(** An audit entry that names no creator: no user id, no [creatorId] detail. *)
Definition namesNoCreator (l : AuditLog) : Prop :=
  al_userId l = None /\ jsonField "creatorId" (details l) = None.



(** Whether a character is the space the stop-word check looks for. *)
Definition isSpace (c : ascii) : bool := Ascii.eqb c " ".

Fixpoint hasSpace (s : string) : bool :=
  match s with
  | EmptyString => false
  | String c rest => isSpace c || hasSpace rest
  end.

(** ** Further scenarios *)

Definition failedIntent : PaymentIntent :=
  mkPaymentIntent "pi_1" 2500 (Some "f1") (Some "custom_video").

Definition orphanIntent : PaymentIntent :=
  mkPaymentIntent "pi_2" 900 None None.

(** * Properties *)

Unset Implicit Arguments.

(** ** The pattern matcher *)

Section Matcher.

Variable r : regex.

Lemma search_from_later_index :
  forall i p l p' l' e,
    seek i p l = Some (p', l') ->
    search r p' l' = Some e ->
    exists e', search r p l = Some e'.
Proof.
  induction i as [|i IH]; intros p l p' l' e Hseek Hfound; simpl in Hseek.
  - inversion Hseek; subst. eauto.
  - destruct l as [|x l]; [discriminate|].
    simpl. destruct (matchHere r p (x :: l)); eauto.
Qed.

End Matcher.

(** A match spans at least [minLength] characters. *)
Lemma starM_consumes (cs : cset) :
  forall l p k e,
    starM cs p l k = Some e ->
    exists p' l', k p' l' = Some e /\ List.length l' <= List.length l.
Proof.
  induction l as [|x l IH]; intros p k e H; simpl in H.
  - exists p, []. split; [exact H | apply Nat.le_refl].
  - destruct (csetMatches cs x).
    + destruct (starM cs (isWordChar x) l k) as [e'|] eqn:Hrec.
      * inversion H; subst e'.
        destruct (IH _ _ _ Hrec) as (p' & l' & Hk & Hlen).
        exists p', l'. split; [exact Hk | simpl; lia].
      * exists p, (x :: l). split; [exact H | apply Nat.le_refl].
    + exists p, (x :: l). split; [exact H | apply Nat.le_refl].
Qed.

Lemma matchM_consumes :
  forall r p l k e,
    matchM r p l k = Some e ->
    exists p' l', k p' l' = Some e /\ List.length l' + minLength r <= List.length l.
Proof.
  induction r as [|cs| |a IHa b IHb|a IHa b IHb|cs]; intros p l k e H; simpl in H.
  - exists p, l. split; [exact H | simpl; lia].
  - destruct l as [|x l]; [discriminate|].
    destruct (csetMatches cs x); [|discriminate].
    exists (isWordChar x), l. split; [exact H | simpl; lia].
  - destruct (xorb p (nextIsWord l)); [|discriminate].
    exists p, l. split; [exact H | simpl; lia].
  - destruct (IHa _ _ _ _ H) as (p1 & l1 & H1 & Hlen1).
    destruct (IHb _ _ _ _ H1) as (p2 & l2 & H2 & Hlen2).
    exists p2, l2. split; [exact H2 | simpl; lia].
  - destruct (matchM a p l k) as [e'|] eqn:Ha.
    + inversion H; subst e'.
      destruct (IHa _ _ _ _ Ha) as (p' & l' & Hk & Hlen).
      exists p', l'. split; [exact Hk | simpl; lia].
    + destruct (IHb _ _ _ _ H) as (p' & l' & Hk & Hlen).
      exists p', l'. split; [exact Hk | simpl; lia].
  - destruct (starM_consumes cs _ _ _ _ H) as (p' & l' & Hk & Hlen).
    exists p', l'. split; [exact Hk | simpl; lia].
Qed.

Lemma search_needs_minLength (r : regex) :
  forall l p e, search r p l = Some e -> minLength r <= List.length l.
Proof.
  induction l as [|x l IH]; intros p e H; simpl in H.
  - destruct (matchHere r p []) as [e'|] eqn:Hm; [|discriminate].
    destruct (matchM_consumes _ _ _ _ _ Hm) as (_ & l' & _ & Hlen). lia.
  - destruct (matchHere r p (x :: l)) as [e'|] eqn:Hm.
    + destruct (matchM_consumes _ _ _ _ _ Hm) as (_ & l' & _ & Hlen). lia.
    + specialize (IH _ _ H). simpl. lia.
Qed.

Lemma length_chars (s : string) : List.length (list_ascii_of_string s) = String.length s.
Proof. induction s as [|c s IH]; simpl; [reflexivity | now rewrite IH]. Qed.

Lemma short_text_matches_nothing (r : regex) (s : string) :
  String.length s < minLength r -> matches r s = false.
Proof.
  intros Hshort. unfold matches.
  destruct (search r false (list_ascii_of_string s)) as [e|] eqn:H; [|reflexivity].
  apply search_needs_minLength in H. rewrite length_chars in H. lia.
Qed.

Lemma test_hit_matches (re : RegExp) (s : string) :
  fst (test re s) = true -> matches (source re) s = true.
Proof.
  unfold test, matches.
  destruct (seek (lastIndex re) false (list_ascii_of_string s)) as [[p rest]|] eqn:Hseek;
    [|discriminate].
  destruct (search (source re) p rest) as [e|] eqn:Hfound; [|discriminate].
  intros _. destruct (search_from_later_index _ _ _ _ _ _ _ Hseek Hfound) as [e' ->].
  reflexivity.
Qed.

Lemma test_miss (re : RegExp) (s : string) :
  matches (source re) s = false -> test re s = (false, fresh (source re)).
Proof.
  intros Hno. destruct (test re s) as [hit re'] eqn:Htest.
  destruct hit.
  - pose proof (test_hit_matches re s) as H. rewrite Htest in H.
    rewrite (H eq_refl) in Hno. discriminate.
  - revert Htest. unfold test, fresh.
    destruct (seek (lastIndex re) false (list_ascii_of_string s)) as [[p rest]|].
    + destruct (search (source re) p rest); intros H; inversion H; reflexivity.
    + intros H; inversion H; reflexivity.
Qed.

Lemma test_keeps_source (re : RegExp) (s : string) :
  source (snd (test re s)) = source re.
Proof.
  unfold test.
  destruct (seek (lastIndex re) false (list_ascii_of_string s)) as [[p rest]|]; [|reflexivity].
  destruct (search (source re) p rest); reflexivity.
Qed.

Lemma testAny_keeps_sources (ps : list RegExp) (s : string) :
  map source (snd (testAny ps s)) = map source ps.
Proof.
  induction ps as [|re ps IH]; simpl; [reflexivity|].
  pose proof (test_keeps_source re s) as Hsrc.
  destruct (test re s) as [hit re']. simpl in Hsrc.
  destruct hit; simpl.
  - now rewrite Hsrc.
  - destruct (testAny ps s) as [hit' ps']. simpl in *. now rewrite Hsrc, IH.
Qed.

Lemma testAny_miss (ps : list RegExp) (s : string) :
  matchesTier (map source ps) s = false ->
  testAny ps s = (false, map (fun re => fresh (source re)) ps).
Proof.
  unfold matchesTier.
  induction ps as [|re ps IH]; simpl; [reflexivity|].
  intros H. apply orb_false_iff in H. destruct H as [Hre Hps].
  rewrite (test_miss re s Hre). rewrite (IH Hps). reflexivity.
Qed.

Lemma testAny_hit_matches (ps : list RegExp) (s : string) :
  fst (testAny ps s) = true -> matchesTier (map source ps) s = true.
Proof.
  unfold matchesTier.
  induction ps as [|re ps IH]; simpl; [discriminate|].
  pose proof (test_hit_matches re s) as Hre.
  destruct (test re s) as [hit re']. simpl in Hre.
  destruct hit; simpl.
  - intros _. now rewrite (Hre eq_refl).
  - destruct (testAny ps s) as [hit' ps']. simpl in *.
    intros H. rewrite (IH H). apply orb_true_r.
Qed.

(** ** The classifier *)

Lemma logToModerationQueue_run (text why : string) (sev : Severity) (w : World) :
  logToModerationQueue text why sev w = (Returned tt, enqueue text why sev w).
Proof. reflexivity. Qed.

(** The four ways [moderateMessage] ends: it always returns, with one of the
    four verdicts; a verdict other than [allow] comes with one new queue row. *)
Lemma moderateMessage_cases (text : string) (fanId : option string) (w : World) :
  exists svc',
    (map source (bannedPatterns svc') = map source (bannedPatterns (moderationService w)) /\
     map source (suspiciousPatterns svc') = map source (suspiciousPatterns (moderationService w)) /\
     map source (escalationPatterns svc') = map source (escalationPatterns (moderationService w))) /\
    (moderateMessage text fanId w =
       (Returned escalateVerdict,
        enqueue text "escalation_pattern" critical (withModerationService svc' w)) \/
     moderateMessage text fanId w =
       (Returned blockVerdict,
        enqueue text "banned_pattern" high (withModerationService svc' w)) \/
     moderateMessage text fanId w =
       (Returned reviewVerdict,
        enqueue text "suspicious_pattern" medium (withModerationService svc' w)) \/
     moderateMessage text fanId w =
       (Returned (allowVerdict text), withModerationService svc' w)).
Proof.
  unfold moderateMessage, bind, testEscalationPatterns, testBannedPatterns,
    testSuspiciousPatterns.
  pose proof (testAny_keeps_sources (escalationPatterns (moderationService w)) text) as He.
  destruct (testAny (escalationPatterns (moderationService w)) text) as [hitE esc'].
  simpl in He. destruct hitE.
  - eexists (mkService _ _ esc'). split; [simpl; auto|]. left. reflexivity.
  - cbn [moderationService withModerationService bannedPatterns suspiciousPatterns
         escalationPatterns].
    pose proof (testAny_keeps_sources (bannedPatterns (moderationService w)) text) as Hb.
    destruct (testAny (bannedPatterns (moderationService w)) text) as [hitB ban'].
    simpl in Hb. destruct hitB.
    + eexists (mkService ban' _ esc'). split; [simpl; auto|]. right; left. reflexivity.
    + cbn [moderationService withModerationService bannedPatterns suspiciousPatterns
           escalationPatterns].
      pose proof (testAny_keeps_sources (suspiciousPatterns (moderationService w)) text) as Hs.
      destruct (testAny (suspiciousPatterns (moderationService w)) text) as [hitS sus'].
      simpl in Hs. destruct hitS.
      * eexists (mkService ban' sus' esc'). split; [simpl; auto|].
        right; right; left. reflexivity.
      * eexists (mkService ban' sus' esc'). split; [simpl; auto|].
        right; right; right. unfold allowVerdict.
        destruct (String.length text <? 3)%nat; reflexivity.
Qed.

Lemma moderateMessage_no_match (text : string) (fanId : option string) (w : World) :
  instancePatterns (moderationService w) ->
  matchesNoTier text = true ->
  moderateMessage text fanId w =
    (Returned (allowVerdict text),
     withModerationService (resetService (moderationService w)) w).
Proof.
  intros (Hb & Hs & He) Hno.
  unfold matchesNoTier in Hno.
  apply andb_true_iff in Hno. destruct Hno as [Hno HnoS].
  apply andb_true_iff in Hno. destruct Hno as [HnoE HnoB].
  apply negb_true_iff in HnoE, HnoB, HnoS.
  rewrite <- He in HnoE. rewrite <- Hb in HnoB. rewrite <- Hs in HnoS.
  unfold moderateMessage, bind, testEscalationPatterns, testBannedPatterns,
    testSuspiciousPatterns.
  rewrite (testAny_miss _ _ HnoE).
  cbn [moderationService withModerationService bannedPatterns suspiciousPatterns
       escalationPatterns].
  rewrite (testAny_miss _ _ HnoB).
  cbn [moderationService withModerationService bannedPatterns suspiciousPatterns
       escalationPatterns].
  rewrite (testAny_miss _ _ HnoS).
  unfold allowVerdict, resetService.
  destruct (String.length text <? 3)%nat; reflexivity.
Qed.

(** ** Frame rules for asynchronous methods *)

Section Frame.

Context {X : Type} (obs : World -> X).

Lemma preserves_ret {A : Type} (a : A) : preserves obs (ret a).
Proof. intros w; reflexivity. Qed.

Lemma preserves_throw {A : Type} (e : string) : preserves obs (@throw A e).
Proof. intros w; reflexivity. Qed.

Lemma preserves_gets {A : Type} (f : World -> A) : preserves obs (gets f).
Proof. intros w; reflexivity. Qed.

Lemma preserves_modify (f : World -> World) :
  (forall w, obs (f w) = obs w) -> preserves obs (modify f).
Proof. intros H w; apply H. Qed.

Lemma preserves_bind {A B : Type} (m : Async A) (k : A -> Async B) :
  preserves obs m -> (forall a, preserves obs (k a)) -> preserves obs (bind m k).
Proof.
  unfold preserves, bind. intros Hm Hk w. specialize (Hm w).
  destruct (m w) as [[a|e] w1]; simpl in *.
  - now rewrite Hk.
  - assumption.
Qed.

Lemma preserves_tryCatch {A : Type} (m : Async A) (h : string -> Async A) :
  preserves obs m -> (forall e, preserves obs (h e)) -> preserves obs (tryCatch m h).
Proof.
  unfold preserves, tryCatch. intros Hm Hh w. specialize (Hm w).
  destruct (m w) as [[a|e] w1]; simpl in *.
  - assumption.
  - now rewrite Hh.
Qed.

End Frame.

Create HintDb frame.

Ltac frame_step :=
  first
    [ solve [auto with frame nocore]
    | apply preserves_ret
    | apply preserves_throw
    | apply preserves_gets
    | apply preserves_modify; intros; reflexivity
    | apply preserves_bind; [|intros]
    | apply preserves_tryCatch; [|intros]
    | match goal with
      | |- preserves _ (match ?x with _ => _ end) => destruct x
      end
    | solve [intros ?; reflexivity] ].

Ltac frame := cbv zeta; repeat (frame_step; cbv zeta).

Lemma createAuditLog_keeps_queue (log : InsertAuditLog) :
  preserves moderationQueue (createAuditLog log).
Proof. unfold createAuditLog, gen_random_uuid. frame. Qed.

Lemma logAction_keeps_queue (act entType entId : string) det (userId fanId : option string) :
  preserves moderationQueue (logAction act entType entId det userId fanId).
Proof. unfold logAction. frame. Qed.

Lemma processStopRequest_keeps_queue (fanId : string) :
  preserves moderationQueue (processStopRequest fanId).
Proof. unfold processStopRequest. frame. Qed.

Lemma respondInConversation_keeps_queue llm persona fan conversation message r :
  preserves moderationQueue (respondInConversation llm persona fan conversation message r).
Proof. unfold respondInConversation, processToolCalls. frame. Qed.

#[local] Hint Resolve respondInConversation_keeps_queue : frame.

Lemma replyAfterModeration_keeps_queue llm fanId personaId message r :
  preserves moderationQueue (replyAfterModeration llm fanId personaId message r).
Proof.
  unfold replyAfterModeration.
  destruct (checkStopWords message).
  - frame.
  - unfold getPersona, getFan, checkConsentGate, getConversationByFanAndPersona,
      createConversation, getConversationMessages, generateResponse, createMessage,
      analyzeSentiment, logConversation, processToolCalls, gen_random_uuid, getFan.
    frame.
Qed.

(** ** Running single operations *)

Lemma bind_run {A B : Type} {m : Async A} (k : A -> Async B) {w w1 : World} {a : A}
  (H : m w = (Returned a, w1)) : bind m k w = k a w1.
Proof. unfold bind. now rewrite H. Qed.

Lemma gets_run {A : Type} (f : World -> A) (w : World) : gets f w = (Returned (f w), w).
Proof. reflexivity. Qed.

Lemma find_references {T : Type} (key : T -> string) (id : string) (l : list T) (x : T) :
  find (fun y => String.eqb (key y) id) l = Some x ->
  references (Some id) (map key l) = true.
Proof.
  unfold references.
  induction l as [|y l IH]; simpl; [discriminate|].
  destruct (String.eqb (key y) id) eqn:E.
  - intros _. rewrite String.eqb_sym, E. reflexivity.
  - intros H. rewrite (IH H). apply orb_true_r.
Qed.

Lemma find_key {T : Type} (key : T -> string) (P : T -> bool) (l : list T) (x : T) :
  find P l = Some x ->
  references (Some (key x)) (map key l) = true.
Proof.
  unfold references.
  induction l as [|y l IH]; simpl; [discriminate|].
  destruct (P y).
  - intros H; inversion H; subst. now rewrite String.eqb_refl.
  - intros H. rewrite (IH H). apply orb_true_r.
Qed.

Lemma createMessage_run (m : InsertMessage) (w : World) :
  references (Some (im_conversationId m)) (map conv_id (conversations w)) = true ->
  createMessage m w =
    (Returned (messageRow w m),
     withMessages (messageRow w m :: messages w) (withNextId (S (nextId w)) w)).
Proof.
  intros H. unfold createMessage. rewrite (bind_run _ (gets_run _ w)). rewrite H.
  reflexivity.
Qed.

Lemma createConversation_run (c : InsertConversation) (w : World) :
  references (Some (ic_fanId c)) (map fan_id (fans w)) = true ->
  references (Some (ic_personaId c)) (map persona_id (personas w)) = true ->
  createConversation c w =
    (Returned (conversationRow w c),
     withConversations (conversationRow w c :: conversations w) (withNextId (S (nextId w)) w)).
Proof.
  intros Hf Hp. unfold createConversation.
  rewrite (bind_run _ (gets_run _ w)). rewrite (bind_run _ (gets_run _ w)).
  rewrite Hf, Hp. reflexivity.
Qed.

Lemma generateResponse_run (llm : LLMService) (ctx : ChatContext) (text : string) (w : World) :
  generateResponse llm ctx text w =
    (Returned (respond llm ctx text), withLlmCalls (generateResponseTag :: llmCalls w) w).
Proof. reflexivity. Qed.

Lemma analyzeSentiment_run (llm : LLMService) (text : string) (w : World) :
  analyzeSentiment llm text w =
    (Returned (classifySentiment llm text),
     withLlmCalls (analyzeSentimentTag :: llmCalls w) w).
Proof. reflexivity. Qed.

Lemma checkConsentGate_run (fanId : string) (w : World) :
  checkConsentGate fanId w =
    (Returned match findFan fanId w with
              | Some f => isConsented f
              | None => false
              end, w).
Proof.
  unfold checkConsentGate, tryCatch, getFan, findFan, isConsented.
  rewrite (bind_run _ (gets_run _ w)).
  destruct (find _ (fans w)); reflexivity.
Qed.

(** ** The reply handler, branch by branch *)

Section ReplyHandler.

Variables (llm : LLMService) (fanId personaId message : string).

Lemma classifierVerdict_of (w w1 : World) (r : ModerationResult) :
  moderateMessage message (Some fanId) w = (Returned r, w1) ->
  classifierVerdict message w = Some (action r).
Proof.
  unfold classifierVerdict.
  change (moderateMessage message None w) with (moderateMessage message (Some fanId) w).
  now intros ->.
Qed.

Lemma postAiReply_blocked (w w1 : World) :
  moderateMessage message (Some fanId) w = (Returned blockVerdict, w1) ->
  postAiReply llm fanId personaId message w =
    (Returned (Blocked (Some "Content matches banned pattern")), logged (blockAudit w1) w1).
Proof.
  intros H. unfold postAiReply, tryCatch, bind. rewrite H. reflexivity.
Qed.

Lemma postAiReply_escalated (w w1 : World) :
  moderateMessage message (Some fanId) w = (Returned escalateVerdict, w1) ->
  postAiReply llm fanId personaId message w =
    (Returned Escalated,
     enqueue message "ESCALATED: Content matches critical violation pattern" critical w1).
Proof.
  intros H. unfold postAiReply, tryCatch, bind. rewrite H. reflexivity.
Qed.

Lemma postAiReply_passed (w w1 : World) (r : ModerationResult) :
  moderateMessage message (Some fanId) w = (Returned r, w1) ->
  action r = allow \/ action r = review ->
  postAiReply llm fanId personaId message w =
    tryCatch (replyAfterModeration llm fanId personaId message r)
             (fun _ => ret InternalError) w1.
Proof.
  intros H Hact. unfold postAiReply, tryCatch at 1, bind at 1. rewrite H.
  destruct Hact as [-> | ->]; reflexivity.
Qed.

Lemma replyAfterModeration_stop (w : World) (r : ModerationResult) :
  checkStopWords message = true ->
  replyAfterModeration llm fanId personaId message r w =
    (Returned StopProcessed, stopped fanId w).
Proof.
  intros Hstop. unfold replyAfterModeration. rewrite Hstop. reflexivity.
Qed.

Lemma replyAfterModeration_consent (w : World) (r : ModerationResult) (p : Persona) (f : Fan) :
  checkStopWords message = false ->
  findPersona personaId w = Some p ->
  findFan fanId w = Some f ->
  isConsented f = false ->
  replyAfterModeration llm fanId personaId message r w = (Returned ConsentRequired, w).
Proof.
  unfold findPersona, findFan, isConsented.
  intros Hstop Hp Hf Hc. unfold replyAfterModeration. rewrite Hstop.
  unfold getPersona, getFan.
  rewrite (bind_run _ (gets_run _ w)); cbv beta. rewrite Hp.
  rewrite (bind_run _ (gets_run _ w)); cbv beta. rewrite Hf. cbv beta iota.
  rewrite (bind_run _ (checkConsentGate_run fanId w)); cbv beta.
  unfold findFan, isConsented. rewrite Hf, Hc. reflexivity.
Qed.

Lemma respondInConversation_run (w : World) (r : ModerationResult) (p : Persona) (f : Fan)
  (c : Conversation) :
  references (Some (conv_id c)) (map conv_id (conversations w)) = true ->
  let ai := respond llm (chatContext p f c w) message in
  exists fanRow aiRow entry w',
    respondInConversation llm p f c message r w =
      (if existsb dispatchedThroughThis (toolCalls ai)
       then Thrown "TypeError: Cannot read properties of undefined"
       else Returned (Responded (ai_message ai) [] (conv_id c) (msg_id aiRow)), w') /\
    messages w' = aiRow :: fanRow :: messages w /\
    (sender fanRow = "fan" /\ content fanRow = message /\ conversationId fanRow = conv_id c) /\
    (sender aiRow = "ai" /\ content aiRow = ai_message ai /\ conversationId aiRow = conv_id c) /\
    llmCalls w' = analyzeSentimentTag :: generateResponseTag :: llmCalls w /\
    auditLogs w' = entry :: auditLogs w /\ al_action entry = "ai_conversation" /\
    fans w' = fans w.
Proof.
  intros Hfk ai.
  unfold respondInConversation, getConversationMessages.
  rewrite (bind_run _ (gets_run _ w)); cbv beta.
  rewrite (bind_run _ (generateResponse_run _ _ _ _)); cbv beta.
  change (respond llm _ message) with ai.
  rewrite (bind_run _ (gets_run _ _)); cbv beta.
  do 2 match goal with
  | |- context [bind (createMessage ?m) ?k ?w0] =>
      rewrite (bind_run k (createMessage_run m w0 Hfk)); cbv beta
  end.
  rewrite (bind_run _ (analyzeSentiment_run _ _ _)); cbv beta.
  match goal with
  | |- context [bind (updateConversation ?i ?a ?b) ?k ?w0] =>
      rewrite (bind_run (m := updateConversation i a b) k (w := w0) eq_refl); cbv beta
  end.
  match goal with
  | |- context [bind (logConversation ?a ?b ?c ?d ?e) ?k ?w0] =>
      rewrite (bind_run (m := logConversation a b c d e) k (w := w0) eq_refl); cbv beta
  end.
  unfold processToolCalls.
  do 4 eexists. split.
  - destruct (existsb dispatchedThroughThis (toolCalls ai)); reflexivity.
  - cbn. repeat split; reflexivity.
Qed.

Lemma replyAfterModeration_responds (w : World) (r : ModerationResult) (p : Persona) (f : Fan) :
  checkStopWords message = false ->
  findPersona personaId w = Some p ->
  findFan fanId w = Some f ->
  isConsented f = true ->
  let conv := conversationOfTurn fanId personaId w in
  let ai := respond llm (chatContext p f conv w) message in
  exists fanRow aiRow entry w',
    replyAfterModeration llm fanId personaId message r w =
      (if existsb dispatchedThroughThis (toolCalls ai)
       then Thrown "TypeError: Cannot read properties of undefined"
       else Returned (Responded (ai_message ai) [] (conv_id conv) (msg_id aiRow)), w') /\
    messages w' = aiRow :: fanRow :: messages w /\
    (sender fanRow = "fan" /\ content fanRow = message /\ conversationId fanRow = conv_id conv) /\
    (sender aiRow = "ai" /\ content aiRow = ai_message ai /\ conversationId aiRow = conv_id conv) /\
    llmCalls w' = analyzeSentimentTag :: generateResponseTag :: llmCalls w /\
    auditLogs w' = entry :: auditLogs w /\ al_action entry = "ai_conversation" /\
    fans w' = fans w.
Proof.
  unfold findPersona, findFan, isConsented.
  intros Hstop Hp Hf Hc. unfold conversationOfTurn. cbv zeta.
  unfold replyAfterModeration. rewrite Hstop.
  unfold getPersona, getFan, getConversationByFanAndPersona.
  rewrite (bind_run _ (gets_run _ w)); cbv beta. rewrite Hp.
  rewrite (bind_run _ (gets_run _ w)); cbv beta. rewrite Hf. cbv beta iota.
  rewrite (bind_run _ (checkConsentGate_run fanId w)); cbv beta.
  unfold findFan, isConsented. rewrite Hf, Hc. cbv beta iota delta [negb].
  rewrite (bind_run _ (gets_run _ w)); cbv beta.
  destruct (find _ (conversations w)) as [c|] eqn:Hconv.
  - rewrite (bind_run (m := ret c) _ (w := w) eq_refl); cbv beta.
    exact (respondInConversation_run w r p f c (find_key conv_id _ _ _ Hconv)).
  - pose proof
      (eq_trans
         (bind_run (fun now => createConversation
                                 (mkInsertConversation fanId personaId (Some "")
                                                       (Some "neutral") (Some now)))
                   (gets_run clock w))
         (createConversation_run
            (mkInsertConversation fanId personaId (Some "") (Some "neutral") (Some (clock w)))
            w (find_references fan_id _ _ _ Hf) (find_references persona_id _ _ _ Hp)))
      as Hcreate.
    rewrite (bind_run _ Hcreate); cbv beta.
    match goal with
    | |- context [respondInConversation llm p f ?c message r ?w0] =>
        exact (respondInConversation_run w0 r p f c
                 ltac:(cbn; now rewrite String.eqb_refl))
    end.
Qed.

Lemma replyAfterModeration_not_found (w : World) (r : ModerationResult) :
  checkStopWords message = false ->
  findPersona personaId w = None \/ findFan fanId w = None ->
  replyAfterModeration llm fanId personaId message r w = (Returned NotFound, w).
Proof.
  unfold findPersona, findFan.
  intros Hstop Hmiss. unfold replyAfterModeration. rewrite Hstop.
  unfold getPersona, getFan.
  rewrite (bind_run _ (gets_run _ w)); cbv beta.
  rewrite (bind_run _ (gets_run _ w)); cbv beta.
  destruct Hmiss as [-> | ->]; [reflexivity|].
  destruct (find _ (personas w)); reflexivity.
Qed.

End ReplyHandler.

Lemma tryCatch_returned {A : Type} (m : Async A) (h : string -> Async A) (w w1 : World) (a : A) :
  m w = (Returned a, w1) -> tryCatch m h w = (Returned a, w1).
Proof. unfold tryCatch. now intros ->. Qed.

Lemma tryCatch_thrown {A : Type} (m : Async A) (h : string -> Async A) (w w1 : World)
  (e : string) :
  m w = (Thrown e, w1) -> tryCatch m h w = h e w1.
Proof. unfold tryCatch. now intros ->. Qed.

Lemma find_map_update {T : Type} (key : T -> string) (g : T -> T) (id : string) (l : list T) :
  (forall x, key (g x) = key x) ->
  find (fun x => String.eqb (key x) id)
       (map (fun x => if String.eqb (key x) id then g x else x) l) =
  option_map g (find (fun x => String.eqb (key x) id) l).
Proof.
  intros Hkey. induction l as [|x l IH]; simpl; [reflexivity|].
  destruct (String.eqb (key x) id) eqn:E; simpl.
  - now rewrite Hkey, E.
  - now rewrite E.
Qed.

Lemma stopped_fan (fanId : string) (w : World) :
  findFan fanId (stopped fanId w) = option_map (optedOut (clock w)) (findFan fanId w).
Proof.
  unfold findFan, stopped. cbn [fans logged withAuditLogs withNextId withFans].
  apply (find_map_update fan_id). reflexivity.
Qed.

(** ** Stop requests *)




(** C7, as the code has it. When the stop-word check of the handler fires,
    that is on a message with a stop-word token that the classifier has
    neither blocked nor escalated, the reply is the fixed acknowledgment and
    the handler ends there: the fan's boundaries become exactly
    ["stop_all_messages"], the preferences become the opted-out marker, one
    audit entry tagged [stop_request] is appended for the fan, and the turn
    makes no call to the language model and persists no conversation or
    message. *)
Theorem stop_request_opts_fan_out
  (llm : LLMService) (fanId personaId message : string) (w : World) (a : Action) (f : Fan) :
  checkStopWords message = true ->
  classifierVerdict message w = Some a ->
  a = allow \/ a = review ->
  findFan fanId w = Some f ->
  let w' := snd (postAiReply llm fanId personaId message w) in
  fst (postAiReply llm fanId personaId message w) = Returned StopProcessed /\
  replyMessage StopProcessed = stopAcknowledgment /\
  (exists f', findFan fanId w' = Some f' /\
              boundaries f' = Some ["stop_all_messages"] /\
              preferences f' = Some [("opted_out", JBool true)] /\
              consentStatus f' = consentStatus f /\
              handle f' = handle f /\ spendTier f' = spendTier f) /\
  (exists entry, auditLogs w' = entry :: auditLogs w /\
                 al_action entry = "stop_request" /\
                 entityType entry = "fan" /\ entityId entry = fanId) /\
  llmCalls w' = llmCalls w /\
  messages w' = messages w /\
  conversations w' = conversations w.
Proof.
  intros Hstop Hv Ha Hf w'.
  assert (Hrun : exists r w1,
             moderateMessage message (Some fanId) w = (Returned r, w1) /\
             (action r = allow \/ action r = review) /\
             fans w1 = fans w /\ clock w1 = clock w /\ auditLogs w1 = auditLogs w /\
             llmCalls w1 = llmCalls w /\ messages w1 = messages w /\
             conversations w1 = conversations w).
  { destruct (moderateMessage_cases message (Some fanId) w) as (svc' & _ & [H|[H|[H|H]]]);
      rewrite (classifierVerdict_of _ _ _ _ _ H) in Hv; inversion Hv; subst a;
      try (destruct Ha; discriminate);
      do 2 eexists; (split; [exact H|]); repeat split; auto. }
  destruct Hrun as (r & w1 & Hmod & Hact & Hfans & Hclock & Haudit & Hllm & Hmsg & Hconv).
  assert (Hreply : postAiReply llm fanId personaId message w =
                     (Returned StopProcessed, stopped fanId w1)).
  { rewrite (postAiReply_passed llm _ personaId _ _ _ _ Hmod Hact).
    apply tryCatch_returned. now apply replyAfterModeration_stop. }
  subst w'. rewrite Hreply. cbn [fst snd].
  split; [reflexivity|]. split; [reflexivity|]. split; [|split].
  - exists (optedOut (clock w1) f). rewrite stopped_fan.
    unfold findFan in *. rewrite Hfans, Hf. repeat split; reflexivity.
  - exists (auditRow (withFans (map (fun x => if String.eqb (fan_id x) fanId
                                            then optedOut (clock w1) x else x) (fans w1)) w1)
                     (stopAudit fanId)).
    cbn. rewrite Haudit. repeat split; reflexivity.
  - cbn. auto.
Qed.

Lemma stop_request_opts_fan_out_witness :
  fst (postAiReply cannedModel "f1" "p1" "hey STOP" demoWorld) = Returned StopProcessed /\
  option_map boundaries (findFan "f1" (snd (postAiReply cannedModel "f1" "p1" "hey STOP" demoWorld)))
    = Some (Some ["stop_all_messages"]).
Proof.
  destruct (stop_request_opts_fan_out cannedModel "f1" "p1" "hey STOP" demoWorld allow
              consentedFan eq_refl eq_refl (or_introl eq_refl) eq_refl)
    as (Hreply & _ & (f' & Hfan & Hb & _) & _).
  split; [exact Hreply|]. rewrite Hfan. cbn. now rewrite Hb.
Defined.

Lemma stop_word_match_without_opt_out :
  checkStopWords "stop or i will harm you" = true /\
  fst (postAiReply cannedModel "f1" "p1" "stop or i will harm you" demoWorld) =
    Returned Escalated /\
  findFan "f1" (snd (postAiReply cannedModel "f1" "p1" "stop or i will harm you" demoWorld)) =
    Some consentedFan /\
  boundaries consentedFan = Some ["no politics"] /\
  auditLogs (snd (postAiReply cannedModel "f1" "p1" "stop or i will harm you" demoWorld)) = [].
Proof. repeat split; vm_compute; reflexivity. Qed.

(** ** The consent gate *)

Lemma newModerationService_patterns : instancePatterns newModerationService.
Proof. repeat split. Qed.


(** C5, as the code has it. A message that matches no pattern of any tier
    and contains no stop-word token, sent to an existing persona by a fan
    who lacks full consent, ends in [consent_required] with the fixed
    prompt, and the turn leaves every table as it was: fans, conversations,
    messages, audit log and moderation queue, with no call to the language
    model. The gate itself only reads: it returns true exactly when the fan
    exists and both flags of the consent record are true. *)
Theorem unconsented_fan_gets_consent_prompt
  (llm : LLMService) (fanId personaId message : string) (w : World) (p : Persona) (f : Fan) :
  instancePatterns (moderationService w) ->
  matchesNoTier message = true ->
  checkStopWords message = false ->
  findPersona personaId w = Some p ->
  findFan fanId w = Some f ->
  isConsented f = false ->
  let w' := snd (postAiReply llm fanId personaId message w) in
  fst (postAiReply llm fanId personaId message w) = Returned ConsentRequired /\
  replyMessage ConsentRequired = consentRequestPrompt /\
  (fans w' = fans w /\ conversations w' = conversations w /\ messages w' = messages w /\
   auditLogs w' = auditLogs w /\ moderationQueue w' = moderationQueue w /\
   personas w' = personas w /\ llmCalls w' = llmCalls w) /\
  (forall id w0,
      exists b, checkConsentGate id w0 = (Returned b, w0) /\
                (b = true <->
                 exists f0 c, findFan id w0 = Some f0 /\ consentStatus f0 = Some c /\
                              ageAffirmed c = true /\ romanticContent c = true)).
Proof.
  intros Hinst Hno Hstop Hp Hf Hc w'.
  pose proof (moderateMessage_no_match message (Some fanId) w Hinst Hno) as Hmod.
  assert (Hreply : postAiReply llm fanId personaId message w =
                     (Returned ConsentRequired,
                      withModerationService (resetService (moderationService w)) w)).
  { rewrite (postAiReply_passed llm _ personaId _ _ _ _ Hmod (or_introl eq_refl)).
    apply tryCatch_returned.
    now apply (replyAfterModeration_consent llm fanId personaId message _ _ p f). }
  subst w'. rewrite Hreply. cbn [fst snd].
  split; [reflexivity|]. split; [reflexivity|]. split; [cbn; repeat split|].
  intros id w0. rewrite checkConsentGate_run. eexists. split; [reflexivity|].
  unfold isConsented. destruct (findFan id w0) as [f0|]; [|split].
  - destruct (consentStatus f0) as [c|] eqn:Hcs; [|split].
    + split.
      * intros H. apply andb_true_iff in H. exists f0, c. tauto.
      * intros (f1 & c1 & Hf1 & Hc1 & Hage & Hrom). inversion Hf1; subst f1.
        rewrite Hcs in Hc1. inversion Hc1; subst c1. now rewrite Hage, Hrom.
    + discriminate.
    + intros (f1 & c1 & Hf1 & Hc1 & _). inversion Hf1; subst f1. congruence.
  - discriminate.
  - intros (f1 & c1 & Hf1 & _). discriminate.
Qed.

Lemma unconsented_fan_gets_consent_prompt_witness :
  fst (postAiReply cannedModel "f2" "p1" "you're so sweet today" demoWorld) =
    Returned ConsentRequired /\
  fans (snd (postAiReply cannedModel "f2" "p1" "you're so sweet today" demoWorld)) =
    fans demoWorld.
Proof.
  destruct (unconsented_fan_gets_consent_prompt cannedModel "f2" "p1" "you're so sweet today"
              demoWorld ava newFan (conj eq_refl (conj eq_refl eq_refl)) eq_refl eq_refl
              eq_refl eq_refl eq_refl)
    as (Hreply & _ & (Hfans & _) & _).
  split; [exact Hreply | exact Hfans].
Defined.

Lemma stop_word_preempts_consent_gate :
  matchesNoTier "no" = true /\
  findFan "f2" demoWorld = Some newFan /\
  isConsented newFan = false /\
  fst (postAiReply cannedModel "f2" "p1" "no" demoWorld) = Returned StopProcessed /\
  option_map boundaries (findFan "f2" (snd (postAiReply cannedModel "f2" "p1" "no" demoWorld)))
    = Some (Some ["stop_all_messages"]) /\
  boundaries newFan = None.
Proof. repeat split; vm_compute; reflexivity. Qed.

(** ** Review, block and escalate verdicts *)

(** C2, as the code has it. The handler dispatches on [block] and on
    [escalate] only. A message on which the classifier returns [review] gets
    one pending queue row of medium severity, whatever happens next, and then
    goes on like an allowed message, check by check: with a stop-word token
    it ends in the stop acknowledgment; for a persona or a fan that does not
    exist in 404; for a fan without full consent in the consent prompt, in
    each of these without a call of the model and without a message stored.
    Otherwise the response generator is called once, with the persona, the
    fan and the history of the conversation, and the fan message and the
    reply it returns are persisted, in that order, in one conversation. *)
Theorem review_verdict_continues_to_responder
  (llm : LLMService) (fanId personaId message : string) (w : World) :
  classifierVerdict message w = Some review ->
  let wm := snd (moderateMessage message (Some fanId) w) in
  let reply := fst (postAiReply llm fanId personaId message w) in
  let w' := snd (postAiReply llm fanId personaId message w) in
  (exists item,
     moderationQueue w' = item :: moderationQueue w /\
     mq_content item = message /\ flagReason item = "suspicious_pattern" /\
     mq_severity item = medium /\ status item = "pending") /\
  (checkStopWords message = true ->
     reply = Returned StopProcessed /\
     llmCalls w' = llmCalls w /\ messages w' = messages w) /\
  (checkStopWords message = false ->
     (findPersona personaId w = None \/ findFan fanId w = None ->
        reply = Returned NotFound /\
        llmCalls w' = llmCalls w /\ messages w' = messages w) /\
     (forall p f,
        findPersona personaId w = Some p ->
        findFan fanId w = Some f ->
        (isConsented f = false ->
           reply = Returned ConsentRequired /\
           llmCalls w' = llmCalls w /\ messages w' = messages w) /\
        (isConsented f = true ->
           let conv := conversationOfTurn fanId personaId wm in
           let ai := respond llm (chatContext p f conv wm) message in
           exists fanRow aiRow,
             reply =
               (if existsb dispatchedThroughThis (toolCalls ai)
                then Returned InternalError
                else Returned (Responded (ai_message ai) [] (conv_id conv) (msg_id aiRow))) /\
             llmCalls w' = analyzeSentimentTag :: generateResponseTag :: llmCalls w /\
             messages w' = aiRow :: fanRow :: messages w /\
             (sender fanRow = "fan" /\ content fanRow = message /\
              conversationId fanRow = conv_id conv) /\
             (sender aiRow = "ai" /\ content aiRow = ai_message ai /\
              conversationId aiRow = conv_id conv)))).
Proof.
  intros Hv.
  destruct (moderateMessage_cases message (Some fanId) w) as (svc' & _ & [H|[H|[H|H]]]);
    rewrite (classifierVerdict_of _ _ _ _ _ H) in Hv; try discriminate. clear Hv.
  rewrite H. cbn [snd].
  set (w1 := enqueue message "suspicious_pattern" medium (withModerationService svc' w)) in *.
  rewrite (postAiReply_passed llm _ personaId _ _ _ _ H (or_intror eq_refl)).
  pose proof (replyAfterModeration_keeps_queue llm fanId personaId message reviewVerdict w1)
    as Hqueue.
  split; [|split].
  - exists (queuedItem (withModerationService svc' w) message "suspicious_pattern" medium).
    split; [|repeat split; reflexivity].
    unfold tryCatch.
    destruct (replyAfterModeration llm fanId personaId message reviewVerdict w1)
      as [[x|e] w2]; cbn [snd ret] in *; rewrite Hqueue; reflexivity.
  - intros Hstop.
    rewrite (tryCatch_returned _ _ _ _ _
               (replyAfterModeration_stop llm fanId personaId message w1 reviewVerdict Hstop)).
    repeat split; reflexivity.
  - intros Hstop. split.
    + intros Hmiss.
      rewrite (tryCatch_returned _ _ _ _ _
                 (replyAfterModeration_not_found llm fanId personaId message w1 reviewVerdict
                    Hstop Hmiss)).
      repeat split; reflexivity.
    + intros p f Hp Hf. split.
      * intros Hc.
        rewrite (tryCatch_returned _ _ _ _ _
                   (replyAfterModeration_consent llm fanId personaId message w1 reviewVerdict
                      p f Hstop Hp Hf Hc)).
        repeat split; reflexivity.
      * intros Hc.
        pose proof (replyAfterModeration_responds llm fanId personaId message w1 reviewVerdict
                      p f Hstop Hp Hf Hc) as Hresp.
        cbv zeta in Hresp.
        destruct Hresp
          as (fanRow & aiRow & entry & w2 & Hrun & Hmsg & HfanRow & HaiRow & Hllm & _).
        exists fanRow, aiRow. revert Hrun.
        destruct (existsb dispatchedThroughThis _); intros Hrun.
        -- rewrite (tryCatch_thrown _ _ _ _ _ Hrun). cbn [fst snd ret].
           repeat split; try assumption; try apply HfanRow; try apply HaiRow.
        -- rewrite (tryCatch_returned _ _ _ _ _ Hrun). cbn [fst snd].
           repeat split; try assumption; try apply HfanRow; try apply HaiRow.
Qed.

Lemma review_verdict_continues_to_responder_witness :
  fst (postAiReply cannedModel "f1" "p1" "hey baby" demoWorld) =
    Returned (Responded "hi there" [] "1" "3") /\
  llmCalls (snd (postAiReply cannedModel "f1" "p1" "hey baby" demoWorld)) =
    [analyzeSentimentTag; generateResponseTag].
Proof.
  destruct (review_verdict_continues_to_responder cannedModel "f1" "p1" "hey baby" demoWorld
              eq_refl)
    as (_ & _ & Hgo).
  destruct (Hgo eq_refl) as (_ & Hfound).
  destruct (Hfound ava consentedFan eq_refl eq_refl) as (_ & Hconsented).
  destruct (Hconsented eq_refl) as (fanRow & aiRow & Hreply & Hllm & Hmsg & _ & Hai).
  split; [|exact Hllm].
  rewrite Hreply. cbn [existsb toolCalls respond cannedModel ai_message].
  assert (Hrow : messages (snd (postAiReply cannedModel "f1" "p1" "hey baby" demoWorld)) =
                 aiRow :: fanRow :: []) by exact Hmsg.
  vm_compute in Hrow. injection Hrow as <- _. reflexivity.
Defined.

Lemma review_message_reaches_responder :
  classifierVerdict "hey baby" demoWorld = Some review /\
  fst (postAiReply cannedModel "f1" "p1" "hey baby" demoWorld) =
    Returned (Responded "hi there" [] "1" "3") /\
  llmCalls (snd (postAiReply cannedModel "f1" "p1" "hey baby" demoWorld)) =
    [analyzeSentimentTag; generateResponseTag] /\
  map (fun m => (sender m, content m))
      (messages (snd (postAiReply cannedModel "f1" "p1" "hey baby" demoWorld))) =
    [("ai", "hi there"); ("fan", "hey baby")] /\
  map sentiment (conversations (snd (postAiReply cannedModel "f1" "p1" "hey baby" demoWorld))) =
    [Some "neutral"].
Proof. repeat split; vm_compute; reflexivity. Qed.

(** C3, as the code has it. A [block] verdict produces exactly one queue row
    and exactly one audit entry, a [moderation_action]. An [escalate]
    verdict produces exactly two queue rows, both critical: the classifier's
    and the one the escalation handler adds. A [review] verdict produces
    exactly one queue row. *)
Theorem queue_rows_per_verdict
  (llm : LLMService) (fanId personaId message : string) (w : World) (a : Action) :
  classifierVerdict message w = Some a ->
  let w' := snd (postAiReply llm fanId personaId message w) in
  match a with
  | block =>
      exists item entry,
        moderationQueue w' = item :: moderationQueue w /\
        (mq_content item = message /\ flagReason item = "banned_pattern" /\
         mq_severity item = high /\ status item = "pending") /\
        auditLogs w' = entry :: auditLogs w /\
        al_action entry = "moderation_action"
  | escalate =>
      exists first second,
        moderationQueue w' = second :: first :: moderationQueue w /\
        (mq_content first = message /\ flagReason first = "escalation_pattern" /\
         mq_severity first = critical /\ status first = "pending") /\
        (mq_content second = message /\
         flagReason second = "ESCALATED: Content matches critical violation pattern" /\
         mq_severity second = critical /\ status second = "pending")
  | review =>
      exists item,
        moderationQueue w' = item :: moderationQueue w /\
        (mq_content item = message /\ flagReason item = "suspicious_pattern" /\
         mq_severity item = medium /\ status item = "pending")
  | allow => moderationQueue w' = moderationQueue w
  end.
Proof.
  intros Hv w'. subst w'.
  destruct (moderateMessage_cases message (Some fanId) w) as (svc' & _ & [H|[H|[H|H]]]);
    rewrite (classifierVerdict_of _ _ _ _ _ H) in Hv; inversion Hv; subst a; clear Hv.
  - rewrite (postAiReply_escalated llm _ personaId _ _ _ H).
    do 2 eexists. cbn. repeat split; reflexivity.
  - rewrite (postAiReply_blocked llm _ personaId _ _ _ H).
    do 2 eexists. cbn. repeat split; reflexivity.
  - rewrite (postAiReply_passed llm _ personaId _ _ _ _ H (or_intror eq_refl)).
    exists (queuedItem (withModerationService svc' w) message "suspicious_pattern" medium).
    split; [|repeat split; reflexivity].
    unfold tryCatch.
    pose proof (replyAfterModeration_keeps_queue llm fanId personaId message reviewVerdict
                  (enqueue message "suspicious_pattern" medium (withModerationService svc' w)))
      as Hq.
    destruct (replyAfterModeration llm fanId personaId message reviewVerdict _) as [[x|e] w1];
      cbn [snd ret] in *; rewrite Hq; reflexivity.
  - rewrite (postAiReply_passed llm _ personaId _ _ _ _ H (or_introl eq_refl)).
    unfold tryCatch.
    pose proof (replyAfterModeration_keeps_queue llm fanId personaId message
                  (allowVerdict message) (withModerationService svc' w)) as Hq.
    destruct (replyAfterModeration llm fanId personaId message (allowVerdict message) _)
      as [[x|e] w1]; cbn [snd ret] in *; rewrite Hq; reflexivity.
Qed.

Lemma queue_rows_per_verdict_witness :
  exists item entry,
    moderationQueue (snd (postAiReply cannedModel "f1" "p1" "let's meet at my hotel" demoWorld))
      = item :: moderationQueue demoWorld /\
    mq_severity item = high /\
    auditLogs (snd (postAiReply cannedModel "f1" "p1" "let's meet at my hotel" demoWorld))
      = entry :: auditLogs demoWorld.
Proof.
  destruct (queue_rows_per_verdict cannedModel "f1" "p1" "let's meet at my hotel" demoWorld
              block eq_refl)
    as (item & entry & Hq & (_ & _ & Hsev & _) & Ha & _).
  exists item, entry. repeat split; assumption.
Defined.

Lemma escalation_queues_twice_audits_never :
  classifierVerdict "kill" demoWorld = Some escalate /\
  fst (postAiReply cannedModel "f1" "p1" "kill" demoWorld) = Returned Escalated /\
  map flagReason (moderationQueue (snd (postAiReply cannedModel "f1" "p1" "kill" demoWorld))) =
    ["ESCALATED: Content matches critical violation pattern"; "escalation_pattern"] /\
  moderationQueue demoWorld = [] /\
  auditLogs (snd (postAiReply cannedModel "f1" "p1" "kill" demoWorld)) = [].
Proof. repeat split; vm_compute; reflexivity. Qed.

(** No pattern of any tier can match a text of fewer than three characters:
    such a text reaches the length check, whatever the state of the instance. *)
Lemma short_text_is_allowed (text : string) (fanId : option string) (w : World) :
  instancePatterns (moderationService w) ->
  String.length text < 3 ->
  fst (moderateMessage text fanId w) = Returned (mkResult allow None low 0.8%Q).
Proof.
  intros Hinst Hshort.
  assert (Htier : forall tier,
             forallb (fun r => (3 <=? minLength r)%nat) tier = true ->
             matchesTier tier text = false).
  { intros tier Hmin. unfold matchesTier.
    induction tier as [|r tier IH]; [reflexivity|].
    cbn [forallb existsb] in *. apply andb_true_iff in Hmin. destruct Hmin as [Hr Htl].
    apply Nat.leb_le in Hr.
    rewrite (short_text_matches_nothing r text) by lia. now rewrite IH. }
  rewrite (moderateMessage_no_match text fanId w Hinst).
  - cbn [fst]. unfold allowVerdict.
    apply Nat.ltb_lt in Hshort. now rewrite Hshort.
  - unfold matchesNoTier.
    now rewrite !Htier by reflexivity.
Qed.

(** ** The classifier across calls *)

Lemma test_fresh (r : regex) (s : string) : fst (test (fresh r) s) = matches r s.
Proof.
  unfold test, matches, fresh. cbn [lastIndex source seek].
  destruct (search r false (list_ascii_of_string s)); reflexivity.
Qed.

Lemma testAny_fresh (rs : list regex) (s : string) :
  fst (testAny (map fresh rs) s) = matchesTier rs s.
Proof.
  unfold matchesTier. induction rs as [|r rs IH]; cbn [map testAny existsb]; [reflexivity|].
  pose proof (test_fresh r s) as Hr.
  destruct (test (fresh r) s) as [hit re']. cbn [fst] in Hr. subst hit.
  destruct (matches r s); cbn [orb fst]; [reflexivity|].
  destruct (testAny (map fresh rs) s) as [hit' rest']. exact IH.
Qed.

(** On an instance whose patterns all have [lastIndex] 0, a new one in
    particular, the verdict is the one the tiers prescribe, in the order
    escalation, block, review. *)
Lemma moderateMessage_on_new_instance (text : string) (fanId : option string) (w : World) :
  moderationService w = newModerationService ->
  fst (moderateMessage text fanId w) = Returned (tierVerdict text).
Proof.
  intros Hsvc.
  unfold moderateMessage, bind, testEscalationPatterns, testBannedPatterns,
    testSuspiciousPatterns, tierVerdict.
  rewrite Hsvc. cbn [escalationPatterns bannedPatterns suspiciousPatterns newModerationService].
  pose proof (testAny_fresh escalationSources text) as He.
  destruct (testAny (map fresh escalationSources) text) as [hitE esc']. cbn [fst] in He.
  rewrite <- He. destruct hitE; [reflexivity|].
  cbn [moderationService withModerationService bannedPatterns suspiciousPatterns
       escalationPatterns].
  pose proof (testAny_fresh bannedSources text) as Hb.
  destruct (testAny (map fresh bannedSources) text) as [hitB ban']. cbn [fst] in Hb.
  rewrite <- Hb. destruct hitB; [reflexivity|].
  cbn [moderationService withModerationService bannedPatterns suspiciousPatterns
       escalationPatterns].
  pose proof (testAny_fresh suspiciousSources text) as Hs.
  destruct (testAny (map fresh suspiciousSources) text) as [hitS sus']. cbn [fst] in Hs.
  rewrite <- Hs. destruct hitS; [reflexivity|].
  unfold allowVerdict. destruct (String.length text <? 3)%nat; reflexivity.
Qed.

(** C4 at the failing input. The text matches an escalation pattern and a
    block pattern. The first call on a new instance escalates it; the second
    call on the same instance starts the escalation pattern at the
    [lastIndex] the first call left, misses, and returns the block verdict. *)
Theorem second_call_downgrades_escalation :
  matchesTier escalationSources "i will harm you" = true /\
  matchesTier bannedSources "i will harm you" = true /\
  fst (moderateMessage "i will harm you" None emptyWorld) = Returned escalateVerdict /\
  fst (moderateMessage "i will harm you" None
         (snd (moderateMessage "i will harm you" None emptyWorld))) = Returned blockVerdict /\
  (action blockVerdict = block /\ severity blockVerdict = high /\
   confidence blockVerdict = 0.9%Q).
Proof. repeat split; vm_compute; reflexivity. Qed.

(** C9 at the failing input. Four successive calls on one instance with the
    same text return four verdicts that differ: escalate, block, escalate,
    allow. *)
Theorem same_text_successive_verdicts_differ :
  successiveVerdicts 4 "kill" emptyWorld =
    [Some escalate; Some block; Some escalate; Some allow].
Proof. vm_compute. reflexivity. Qed.

(** ** Resolving a queue item *)

(** C6, as the code has it. Resolving sets the status of the item to the
    status given, whatever its current status, together with the reviewer
    and the review time; no transition is checked. The one rejection is a
    reviewer that is not a user, which leaves the queue as it was. *)
Theorem resolve_sets_any_status
  (id newStatus : string) (reviewer : option string) (w : World) (item : ModerationQueue) :
  findQueueItem id w = Some item ->
  let resolved := mkModerationQueue (mq_id item) (mq_content item) (flagReason item)
                    (mq_severity item) newStatus (orElse reviewer (reviewedBy item))
                    (Some (clock w)) (mq_createdAt item) in
  (references reviewer (users w) = true ->
   fst (putModerationQueue id (Some newStatus) reviewer w) = Returned (QueueItem (Some resolved)) /\
   findQueueItem id (snd (putModerationQueue id (Some newStatus) reviewer w)) = Some resolved) /\
  (references reviewer (users w) = false ->
   putModerationQueue id (Some newStatus) reviewer w =
     (Returned (QueueRejected foreignKeyViolation), w)).
Proof.
  intros Hitem resolved. unfold findQueueItem in Hitem.
  assert (Hhit : existsb (fun i => String.eqb (mq_id i) id) (moderationQueue w) = true).
  { apply existsb_exists. apply find_some in Hitem. exists item. exact Hitem. }
  unfold putModerationQueue, tryCatch.
  rewrite (bind_run _ (gets_run clock w)).
  unfold bind, updateModerationQueue. cbn [set_reviewedBy]. rewrite Hhit.
  split; intros Href; rewrite Href; cbn [andb negb fst snd]; [|reflexivity].
  assert (Hfind : find (fun i => String.eqb (mq_id i) id)
                    (map (fun i => if String.eqb (mq_id i) id
                                   then applyQueueUpdates
                                          (mkQueueUpdates (Some newStatus) reviewer
                                                          (Some (clock w))) i
                                   else i) (moderationQueue w)) = Some resolved).
  { rewrite (find_map_update mq_id); [|reflexivity]. rewrite Hitem. reflexivity. }
  unfold findQueueItem. rewrite Hfind. cbn [ret fst snd moderationQueue withModerationQueue].
  rewrite Hfind. split; reflexivity.
Qed.

Lemma resolve_sets_any_status_witness :
  fst (putModerationQueue "q1" (Some "blocked") (Some "u1") reviewWorld) =
    Returned (QueueItem (Some (mkModerationQueue "q1" "flagged text" "banned_pattern" high
                                                 "blocked" (Some "u1") (Some 20) 5))).
Proof.
  exact (proj1 (proj1 (resolve_sets_any_status "q1" "blocked" (Some "u1") reviewWorld
                         (flaggedItem "q1" "pending" high) eq_refl) eq_refl)).
Defined.

Lemma resolved_item_is_resolved_again :
  let afterFirst := snd (putModerationQueue "q1" (Some "blocked") (Some "u1") reviewWorld) in
  option_map status (findQueueItem "q1" reviewWorld) = Some "pending" /\
  option_map status (findQueueItem "q1" afterFirst) = Some "blocked" /\
  fst (putModerationQueue "q1" (Some "approved") (Some "u1") afterFirst) =
    Returned (QueueItem (Some (mkModerationQueue "q1" "flagged text" "banned_pattern" high
                                                 "approved" (Some "u1") (Some 20) 5))) /\
  option_map status
    (findQueueItem "q1" (snd (putModerationQueue "q1" (Some "approved") (Some "u1") afterFirst)))
    = Some "approved".
Proof. repeat split; vm_compute; reflexivity. Qed.

(** ** Recording consent *)

Lemma logAction_returns (act entType entId : string) (det : list (string * Json))
  (userId fanId : option string) (w : World) :
  exists w', logAction act entType entId det userId fanId w = (Returned tt, w') /\
             fans w' = fans w.
Proof.
  unfold logAction, tryCatch, createAuditLog, bind, gets.
  cbn [ia_userId ia_fanId].
  destruct (references userId (users w) && references fanId (map fan_id (fans w)));
    eexists; split; reflexivity.
Qed.

Lemma arrayIncludes_In (xs : list string) (x : string) :
  arrayIncludes xs x = true <-> In x xs.
Proof.
  unfold arrayIncludes. rewrite existsb_exists. split.
  - intros (y & Hy & Heq). apply String.eqb_eq in Heq. now subst.
  - intros H. exists x. split; [exact H | apply String.eqb_refl].
Qed.

(** C10. Recording an affirmation replaces the fan's consent record:
    [ageAffirmed] is true exactly when the array contains "I am 18+",
    [romanticContent] exactly when it contains "I consent to romantic
    messages", whatever the record held before; the other columns of the fan
    keep their values. An empty array sets both flags to false. *)
Theorem consent_affirmation_replaces_record
  (fanId : string) (affirmations : list string) (w : World) (f : Fan) :
  findFan fanId w = Some f ->
  exists consent,
    fst (postConsentAffirm fanId affirmations w) = Returned (ConsentRecorded consent) /\
    findFan fanId (snd (postConsentAffirm fanId affirmations w)) =
      Some (mkFan (fan_id f) (handle f) (preferences f) (spendTier f) (boundaries f)
                  (Some consent) (clock w)) /\
    (ageAffirmed consent = true <-> In "I am 18+" affirmations) /\
    (romanticContent consent = true <-> In "I consent to romantic messages" affirmations) /\
    timestamp consent = clock w /\
    (affirmations = [] -> ageAffirmed consent = false /\ romanticContent consent = false).
Proof.
  intros Hf.
  set (consent := mkConsent (arrayIncludes affirmations "I am 18+")
                            (arrayIncludes affirmations "I consent to romantic messages")
                            (clock w)).
  exists consent.
  set (fs := map (fun x => if String.eqb (fan_id x) fanId
                           then applyFanUpdates (mkFanUpdates None None (Some consent)) (clock w) x
                           else x) (fans w)).
  destruct (logAction_returns "fan_interaction" "fan" fanId
              ([("interactionType", JStr "consent_affirmed")] ++
               [("affirmations", JArr (map JStr affirmations))] ++
               [("timestamp", JDate (clock w))])
              None (Some fanId) (withFans fs w)) as (w2 & Hlog & Hfans).
  assert (Hrun : postConsentAffirm fanId affirmations w = (Returned (ConsentRecorded consent), w2)).
  { unfold postConsentAffirm. apply tryCatch_returned.
    rewrite (bind_run _ (gets_run clock w)).
    rewrite (bind_run (m := updateFan fanId (mkFanUpdates None None (Some consent)))
                      _ (w := w) (w1 := withFans fs w) eq_refl).
    unfold logFanInteraction.
    rewrite (bind_run (a := tt) (w1 := w2) _
               (eq_trans (bind_run _ (gets_run clock (withFans fs w))) Hlog)).
    reflexivity. }
  rewrite Hrun. cbn [fst snd].
  split; [reflexivity|]. split; [|split; [|split; [|split]]].
  - unfold findFan in *. rewrite Hfans. cbn [fans withFans]. unfold fs.
    rewrite (find_map_update fan_id); [|reflexivity]. rewrite Hf. reflexivity.
  - apply arrayIncludes_In.
  - apply arrayIncludes_In.
  - reflexivity.
  - intros ->. split; reflexivity.
Qed.

Lemma consent_affirmation_replaces_record_witness :
  option_map consentStatus (findFan "f1" demoWorld) = Some (Some (mkConsent true true 3)) /\
  option_map consentStatus (findFan "f1" (snd (postConsentAffirm "f1" [] demoWorld))) =
    Some (Some (mkConsent false false 10)).
Proof.
  split; [reflexivity|].
  destruct (consent_affirmation_replaces_record "f1" [] demoWorld consentedFan eq_refl)
    as (consent & _ & Hfan & _ & _ & Htime & Hempty).
  rewrite Hfan. destruct (Hempty eq_refl) as [Hage Hrom].
  destruct consent as [age rom time]. cbn in *. subst. reflexivity.
Defined.

(** ** Rounding to binary64 *)

Section Rounding.

Import Float64.
Local Open Scope Q_scope.

Lemma pow2_pos e : 0 < pow2 e.
Proof. apply Qpower_0_lt. reflexivity. Qed.

Lemma pow2_add a b : pow2 (a + b) == pow2 a * pow2 b.
Proof. apply Qpower_plus. discriminate. Qed.

Lemma pow2_le a b : (a <= b)%Z -> pow2 a <= pow2 b.
Proof. intros H. apply Qpower_le_compat_l; [exact H|discriminate]. Qed.

Lemma pow2_lt a b : (a < b)%Z -> pow2 a < pow2 b.
Proof. intros H. apply Qpower_lt_compat_l; [exact H|reflexivity]. Qed.

Lemma pow2_lt_inv a b : pow2 a < pow2 b -> (a < b)%Z.
Proof. intros H. apply (Qpower_lt_compat_l_inv 2); [exact H|reflexivity]. Qed.

Lemma pow2_le_inv a b : pow2 a <= pow2 b -> (a <= b)%Z.
Proof. intros H. apply (Qpower_le_compat_l_inv 2); [exact H|reflexivity]. Qed.

Lemma pow2_Z n : (0 <= n)%Z -> pow2 n == inject_Z (2 ^ n).
Proof. intros H. unfold pow2. now rewrite Zpower_Qpower. Qed.

Lemma pow2_succ a : pow2 (a + 1) == 2 * pow2 a.
Proof. rewrite pow2_add. change (pow2 1) with 2. ring. Qed.

Lemma pow2_pred a : pow2 (a - 1) == (1 # 2) * pow2 a.
Proof.
  assert (H := pow2_succ (a - 1)). replace (a - 1 + 1)%Z with a in H by lia.
  rewrite H. field.
Qed.

(** Integers between powers of two. *)
Lemma log2_bounds (n : Z) :
  (0 < n)%Z -> pow2 (Z.log2 n) <= inject_Z n < pow2 (Z.log2 n + 1).
Proof.
  intros H. destruct (Z.log2_spec n H) as [Hlo Hhi].
  pose proof (Z.log2_nonneg n).
  rewrite !pow2_Z by lia. rewrite <- Zle_Qle, <- Zlt_Qlt.
  replace (Z.log2 n + 1)%Z with (Z.succ (Z.log2 n)) by lia. split; assumption.
Qed.

Lemma Q_as_fraction (x : Q) : x * inject_Z (Zpos (Qden x)) == inject_Z (Qnum x).
Proof. destruct x as [n d]. unfold Qeq, inject_Z, Qmult. simpl. lia. Qed.

Lemma log2floor_spec (x : Q) :
  0 < x -> pow2 (log2floor x) <= x < pow2 (log2floor x + 1).
Proof.
  intros Hx.
  assert (Hn : (0 < Qnum x)%Z).
  { destruct x as [n d]. unfold Qlt in Hx. simpl in *. lia. }
  destruct (log2_bounds (Qnum x) Hn) as [Hnlo Hnhi].
  destruct (log2_bounds (Zpos (Qden x)) eq_refl) as [Hdlo Hdhi].
  pose proof (Q_as_fraction x) as Hfrac.
  set (a := Z.log2 (Qnum x)) in *. set (b := Z.log2 (Zpos (Qden x))) in *.
  set (d := inject_Z (Zpos (Qden x))) in *. set (n := inject_Z (Qnum x)) in *.
  assert (Hd : 0 < d) by (unfold d; change 0 with (inject_Z 0); rewrite <- Zlt_Qlt; lia).
  assert (Hup : x < pow2 (a - b + 1)).
  { apply Qmult_lt_r with d; [exact Hd|].
    rewrite Hfrac. apply Qlt_le_trans with (pow2 (a + 1)); [exact Hnhi|].
    replace (a + 1)%Z with ((a - b + 1) + b)%Z by lia. rewrite pow2_add.
    apply Qmult_le_l; [apply pow2_pos | exact Hdlo]. }
  assert (Hlow : pow2 (a - b - 1) <= x).
  { apply Qmult_le_r with d; [exact Hd|].
    rewrite Hfrac. apply Qle_trans with (pow2 a); [|exact Hnlo].
    replace a with ((a - b - 1) + (b + 1))%Z at 2 by lia. rewrite pow2_add.
    apply Qmult_le_l; [apply pow2_pos | apply Qlt_le_weak, Hdhi]. }
  unfold log2floor. fold a b.
  destruct (Qle_bool (pow2 (a - b)) x) eqn:E.
  - apply Qle_bool_iff in E. split; assumption.
  - assert (Hlt : x < pow2 (a - b)).
    { apply Qnot_le_lt. intros Hle. apply Qle_bool_iff in Hle. congruence. }
    replace (a - b - 1 + 1)%Z with (a - b)%Z by lia. split; assumption.
Qed.

Lemma log2floor_unique (x : Q) (l : Z) :
  pow2 l <= x < pow2 (l + 1) -> 0 < x -> log2floor x = l.
Proof.
  intros [Hlo Hhi] Hx. destruct (log2floor_spec x Hx) as [Hlo' Hhi'].
  assert (l < log2floor x + 1)%Z by (apply pow2_lt_inv; lra).
  assert (log2floor x < l + 1)%Z by (apply pow2_lt_inv; lra).
  lia.
Qed.

Lemma log2floor_le (x y : Q) : 0 < x -> x <= y -> (log2floor x <= log2floor y)%Z.
Proof.
  intros Hx Hxy.
  destruct (log2floor_spec x Hx) as [Hlo _].
  destruct (log2floor_spec y) as [_ Hhi]; [lra|].
  assert (log2floor x < log2floor y + 1)%Z by (apply pow2_lt_inv; lra). lia.
Qed.

Lemma log2floor_comp (x y : Q) : 0 < x -> x == y -> log2floor x = log2floor y.
Proof.
  intros Hx Hxy. symmetry. apply log2floor_unique; [|lra].
  destruct (log2floor_spec x Hx). lra.
Qed.

(** Rounding to the nearest integer, ties to even *)

Ltac compared H :=
  first [apply Qeq_alt in H | apply Qlt_alt in H | apply Qgt_alt in H].

Lemma roundHalfEven_floor (q : Q) :
  (Qfloor q <= roundHalfEven q <= Qfloor q + 1)%Z.
Proof.
  unfold roundHalfEven. destruct (q - inject_Z (Qfloor q) ?= 1 # 2); [|lia|lia].
  destruct (Z.even (Qfloor q)); lia.
Qed.

Lemma roundHalfEven_near (q : Q) :
  q - (1 # 2) <= inject_Z (roundHalfEven q) <= q + (1 # 2).
Proof.
  pose proof (Qfloor_le q) as Hlo. pose proof (Qlt_floor q) as Hhi.
  unfold roundHalfEven.
  destruct (q - inject_Z (Qfloor q) ?= 1 # 2) eqn:E.
  - apply Qeq_alt in E.
    destruct (Z.even (Qfloor q)); [|rewrite inject_Z_plus; change (inject_Z 1) with 1]; lra.
  - apply Qlt_alt in E. lra.
  - apply Qgt_alt in E. rewrite inject_Z_plus. change (inject_Z 1) with 1.
    rewrite inject_Z_plus in Hhi. change (inject_Z 1) with 1 in Hhi. lra.
Qed.

Lemma roundHalfEven_Z (z : Z) : roundHalfEven (inject_Z z) = z.
Proof.
  unfold roundHalfEven. rewrite Qfloor_Z.
  destruct (inject_Z z - inject_Z z ?= 1 # 2) eqn:E; [| reflexivity |]; exfalso.
  - apply Qeq_alt in E. lra.
  - apply Qgt_alt in E. lra.
Qed.

Lemma roundHalfEven_comp (x y : Q) : x == y -> roundHalfEven x = roundHalfEven y.
Proof.
  intros H. unfold roundHalfEven. rewrite (Qfloor_comp x y H).
  assert (Hc : (x - inject_Z (Qfloor y) ?= 1 # 2) = (y - inject_Z (Qfloor y) ?= 1 # 2)).
  { apply Qcompare_comp; [now rewrite H | reflexivity]. }
  now rewrite Hc.
Qed.

Lemma roundHalfEven_le (x y : Q) : x <= y -> (roundHalfEven x <= roundHalfEven y)%Z.
Proof.
  intros H. pose proof (Qfloor_resp_le x y H) as Hf.
  pose proof (roundHalfEven_floor x). pose proof (roundHalfEven_floor y).
  destruct (Z.eq_dec (Qfloor x) (Qfloor y)) as [E|E]; [|lia].
  unfold roundHalfEven. rewrite E.
  destruct (x - inject_Z (Qfloor y) ?= 1 # 2) eqn:Ex;
    destruct (y - inject_Z (Qfloor y) ?= 1 # 2) eqn:Ey;
    try (destruct (Z.even (Qfloor y))); try lia; exfalso;
    compared Ex; compared Ey; lra.
Qed.

(** The exponent and the magnitude of a number *)

Lemma exponent_min (x : Q) : (-1074 <= exponent x)%Z.
Proof. unfold exponent. lia. Qed.

Lemma Qabs_pos_of_nonzero (x : Q) : ~ x == 0 -> 0 < Qabs x.
Proof.
  intros H. destruct (Qlt_le_dec 0 (Qabs x)) as [|Hle]; [assumption|].
  exfalso. apply H. pose proof (Qabs_nonneg x).
  apply (proj1 (Qabs_Qle_condition x 0)) in Hle. lra.
Qed.

Lemma magnitude_below (x : Q) : ~ x == 0 -> Qabs x < pow2 (exponent x + 53).
Proof.
  intros H. destruct (log2floor_spec (Qabs x) (Qabs_pos_of_nonzero x H)) as [_ Hhi].
  apply Qlt_le_trans with (1 := Hhi). apply pow2_le. unfold exponent. lia.
Qed.

Lemma magnitude_above (x : Q) :
  ~ x == 0 -> (-1074 < exponent x)%Z -> pow2 (exponent x + 52) <= Qabs x.
Proof.
  intros H He. destruct (log2floor_spec (Qabs x) (Qabs_pos_of_nonzero x H)) as [Hlo _].
  apply Qle_trans with (2 := Hlo). apply pow2_le. unfold exponent in *. lia.
Qed.

Lemma exponent_le (x y : Q) : ~ x == 0 -> Qabs x <= Qabs y -> (exponent x <= exponent y)%Z.
Proof.
  intros H Hxy. unfold exponent.
  pose proof (log2floor_le (Qabs x) (Qabs y) (Qabs_pos_of_nonzero x H) Hxy). lia.
Qed.

Lemma exponent_comp (x y : Q) : ~ x == 0 -> x == y -> exponent x = exponent y.
Proof.
  intros H Hxy. unfold exponent.
  rewrite (log2floor_comp (Qabs x) (Qabs y)); [reflexivity| |now rewrite Hxy].
  now apply Qabs_pos_of_nonzero.
Qed.

Lemma round_nonzero (x : Q) :
  ~ x == 0 ->
  round x = inject_Z (roundHalfEven (x / pow2 (exponent x))) * pow2 (exponent x).
Proof.
  intros H. unfold round. destruct (Qeq_bool x 0) eqn:E; [|reflexivity].
  apply Qeq_bool_iff in E. contradiction.
Qed.

Lemma round_zero (x : Q) : x == 0 -> round x = 0.
Proof.
  intros H. unfold round. destruct (Qeq_bool x 0) eqn:E; [reflexivity|].
  apply Qeq_bool_neq in E. contradiction.
Qed.

Lemma round_comp (x y : Q) : x == y -> round x == round y.
Proof.
  intros H. destruct (Qeq_dec x 0) as [Hz|Hnz].
  - rewrite (round_zero x Hz), (round_zero y); [reflexivity|now rewrite <- H].
  - rewrite (round_nonzero x Hnz), (round_nonzero y) by (now rewrite <- H).
    rewrite (exponent_comp x y Hnz H).
    rewrite (roundHalfEven_comp (x / pow2 (exponent y)) (y / pow2 (exponent y)));
      [reflexivity|now rewrite H].
Qed.

Lemma scaled (x : Q) (e : Z) : x / pow2 e * pow2 e == x.
Proof. field. pose proof (pow2_pos e). lra. Qed.

Lemma div_pow2_le (x y : Q) (e : Z) : x <= y -> x / pow2 e <= y / pow2 e.
Proof.
  intros H. unfold Qdiv. apply Qmult_le_compat_r; [exact H|].
  apply Qlt_le_weak, Qinv_lt_0_compat, pow2_pos.
Qed.

Lemma mul_pow2_le (a b : Q) (e : Z) : a <= b -> a * pow2 e <= b * pow2 e.
Proof. intros H. apply Qmult_le_compat_r; [exact H | apply Qlt_le_weak, pow2_pos]. Qed.

Lemma round_nonneg (x : Q) : 0 <= x -> 0 <= round x.
Proof.
  intros H. destruct (Qeq_dec x 0) as [Hz|Hnz]; [rewrite (round_zero x Hz); lra|].
  rewrite (round_nonzero x Hnz).
  apply Qmult_le_0_compat; [|apply Qlt_le_weak, pow2_pos].
  change 0 with (inject_Z 0). rewrite <- Zle_Qle.
  rewrite <- (roundHalfEven_Z 0). apply roundHalfEven_le.
  change (inject_Z 0) with 0. apply Qle_shift_div_l; [apply pow2_pos|lra].
Qed.

Lemma round_nonpos (x : Q) : x <= 0 -> round x <= 0.
Proof.
  intros H. destruct (Qeq_dec x 0) as [Hz|Hnz]; [rewrite (round_zero x Hz); lra|].
  rewrite (round_nonzero x Hnz).
  assert (Hr : inject_Z (roundHalfEven (x / pow2 (exponent x))) <= 0).
  { change 0 with (inject_Z 0). rewrite <- Zle_Qle.
    rewrite <- (roundHalfEven_Z 0). apply roundHalfEven_le.
    change (inject_Z 0) with 0. apply Qle_shift_div_r; [apply pow2_pos|lra]. }
  pose proof (pow2_pos (exponent x)). nra.
Qed.

Lemma pow2_split (e k : Z) : (0 <= k)%Z -> pow2 (e + k) == inject_Z (2 ^ k) * pow2 e.
Proof. intros H. rewrite pow2_add, (pow2_Z k H). ring. Qed.

Lemma round_below (x : Q) (k : Z) :
  (0 <= k)%Z -> ~ x == 0 -> x <= pow2 (exponent x + k) -> round x <= pow2 (exponent x + k).
Proof.
  intros Hk Hnz H. rewrite (round_nonzero x Hnz), (pow2_split _ k Hk).
  apply mul_pow2_le. rewrite <- Zle_Qle.
  rewrite <- (roundHalfEven_Z (2 ^ k)). apply roundHalfEven_le.
  apply Qle_shift_div_r; [apply pow2_pos|]. now rewrite <- (pow2_split _ k Hk).
Qed.

Lemma round_above (x : Q) (k : Z) :
  (0 <= k)%Z -> ~ x == 0 -> pow2 (exponent x + k) <= x -> pow2 (exponent x + k) <= round x.
Proof.
  intros Hk Hnz H. rewrite (round_nonzero x Hnz), (pow2_split _ k Hk).
  apply mul_pow2_le. rewrite <- Zle_Qle.
  rewrite <- (roundHalfEven_Z (2 ^ k)). apply roundHalfEven_le.
  apply Qle_shift_div_l; [apply pow2_pos|]. now rewrite <- (pow2_split _ k Hk).
Qed.

Lemma round_below_neg (x : Q) (k : Z) :
  (0 <= k)%Z -> ~ x == 0 -> x <= - pow2 (exponent x + k) ->
  round x <= - pow2 (exponent x + k).
Proof.
  intros Hk Hnz H. rewrite (round_nonzero x Hnz), (pow2_split _ k Hk).
  setoid_replace (- (inject_Z (2 ^ k) * pow2 (exponent x)))
    with (inject_Z (- 2 ^ k) * pow2 (exponent x)) by (rewrite inject_Z_opp; ring).
  apply mul_pow2_le. rewrite <- Zle_Qle.
  rewrite <- (roundHalfEven_Z (- 2 ^ k)). apply roundHalfEven_le.
  apply Qle_shift_div_r; [apply pow2_pos|].
  rewrite inject_Z_opp. rewrite (pow2_split _ k Hk) in H. lra.
Qed.

Lemma round_above_neg (x : Q) (k : Z) :
  (0 <= k)%Z -> ~ x == 0 -> - pow2 (exponent x + k) <= x ->
  - pow2 (exponent x + k) <= round x.
Proof.
  intros Hk Hnz H. rewrite (round_nonzero x Hnz), (pow2_split _ k Hk).
  setoid_replace (- (inject_Z (2 ^ k) * pow2 (exponent x)))
    with (inject_Z (- 2 ^ k) * pow2 (exponent x)) by (rewrite inject_Z_opp; ring).
  apply mul_pow2_le. rewrite <- Zle_Qle.
  rewrite <- (roundHalfEven_Z (- 2 ^ k)). apply roundHalfEven_le.
  apply Qle_shift_div_l; [apply pow2_pos|].
  rewrite inject_Z_opp. rewrite (pow2_split _ k Hk) in H. lra.
Qed.

Lemma round_same_exponent (x y : Q) :
  ~ x == 0 -> ~ y == 0 -> exponent x = exponent y -> x <= y -> round x <= round y.
Proof.
  intros Hx Hy He H. rewrite (round_nonzero x Hx), (round_nonzero y Hy), He.
  apply mul_pow2_le. rewrite <- Zle_Qle. apply roundHalfEven_le. now apply div_pow2_le.
Qed.

Lemma round_le_pos (x y : Q) : 0 < x -> x <= y -> round x <= round y.
Proof.
  intros Hx Hxy.
  assert (Hnx : ~ x == 0) by lra. assert (Hny : ~ y == 0) by lra.
  assert (Hax : Qabs x == x) by (apply Qabs_pos; lra).
  assert (Hay : Qabs y == y) by (apply Qabs_pos; lra).
  assert (He : (exponent x <= exponent y)%Z) by (apply exponent_le; [assumption|lra]).
  destruct (Z.eq_dec (exponent x) (exponent y)) as [E|E].
  - now apply round_same_exponent.
  - pose proof (magnitude_below x Hnx) as Hbx.
    pose proof (magnitude_above y Hny ltac:(pose proof (exponent_min x); lia)) as Hay'.
    apply Qle_trans with (pow2 (exponent x + 53)).
    + apply round_below; [lia|assumption|lra].
    + apply Qle_trans with (pow2 (exponent y + 52)); [apply pow2_le; lia|].
      apply round_above; [lia|assumption|lra].
Qed.

Lemma round_le_neg (x y : Q) : y < 0 -> x <= y -> round x <= round y.
Proof.
  intros Hy Hxy.
  assert (Hnx : ~ x == 0) by lra. assert (Hny : ~ y == 0) by lra.
  assert (Hax : Qabs x == - x) by (apply Qabs_neg; lra).
  assert (Hay : Qabs y == - y) by (apply Qabs_neg; lra).
  assert (He : (exponent y <= exponent x)%Z) by (apply exponent_le; [assumption|lra]).
  destruct (Z.eq_dec (exponent x) (exponent y)) as [E|E].
  - now apply round_same_exponent.
  - pose proof (magnitude_below y Hny) as Hby.
    pose proof (magnitude_above x Hnx ltac:(pose proof (exponent_min y); lia)) as Hax'.
    apply Qle_trans with (- pow2 (exponent x + 52)).
    + apply round_below_neg; [lia|assumption|lra].
    + apply Qle_trans with (- pow2 (exponent y + 53)).
      * apply Qopp_le_compat, pow2_le. lia.
      * apply round_above_neg; [lia|assumption|lra].
Qed.

(** Rounding is monotone. *)
Lemma round_le (x y : Q) : x <= y -> round x <= round y.
Proof.
  intros H.
  destruct (Qlt_le_dec 0 x) as [Hx|Hx]; [now apply round_le_pos|].
  destruct (Qlt_le_dec y 0) as [Hy|Hy]; [now apply round_le_neg|].
  apply Qle_trans with 0; [now apply round_nonpos | now apply round_nonneg].
Qed.

(** The rounding error is at most half a unit in the last place. *)
Lemma round_near (x : Q) (j : Z) :
  (-1022 <= j)%Z -> Qabs x <= pow2 j -> Qabs (round x - x) <= pow2 (j - 53).
Proof.
  intros Hj Hx. destruct (Qeq_dec x 0) as [Hz|Hnz].
  - rewrite (round_zero x Hz).
    setoid_replace (0 - x) with 0 by (rewrite Hz; ring).
    apply Qlt_le_weak, pow2_pos.
  - rewrite (round_nonzero x Hnz).
    set (e := exponent x). set (q := x / pow2 e).
    assert (Hq : x == q * pow2 e) by (unfold q; now rewrite scaled).
    pose proof (roundHalfEven_near q) as [Hlo Hhi].
    pose proof (pow2_pos e) as Hp.
    assert (He : (e <= j - 52)%Z).
    { destruct (log2floor_spec (Qabs x) (Qabs_pos_of_nonzero x Hnz)) as [Hl _].
      assert (log2floor (Qabs x) <= j)%Z by (apply pow2_le_inv; lra).
      unfold e, exponent. lia. }
    apply Qle_trans with (pow2 (e - 1)); [|apply pow2_le; lia].
    rewrite pow2_pred. apply Qabs_Qle_condition.
    setoid_replace (inject_Z (roundHalfEven q) * pow2 e - x)
      with ((inject_Z (roundHalfEven q) - q) * pow2 e) by (rewrite Hq at 1; ring).
    clearbody q. split.
    + apply Qle_trans with (- (1 # 2) * pow2 e); [lra|].
      apply Qmult_le_compat_r; lra.
    + apply Qle_trans with ((1 # 2) * pow2 e); [|lra].
      apply Qmult_le_compat_r; lra.
Qed.

(** The error of one operation whose exact result is at most [bound]. *)
Lemma round_within (x bound eps : Q) (j : Z) :
  (-1022 <= j)%Z -> bound <= pow2 j -> pow2 (j - 53) <= eps ->
  - bound <= x <= bound ->
  x - eps <= round x <= x + eps.
Proof.
  intros Hj Hb He Hx.
  assert (Habs : Qabs x <= pow2 j) by (apply Qabs_Qle_condition; lra).
  pose proof (round_near x j Hj Habs) as H. apply Qabs_Qle_condition in H. lra.
Qed.

End Rounding.

(** ** The compliance score *)

Section Score.

Local Open Scope Q_scope.

Lemma ofNat_nonneg (n : nat) : 0 <= ofNat n.
Proof. unfold ofNat. change 0 with (inject_Z 0). rewrite <- Zle_Qle. lia. Qed.

Lemma ofNat_le (n m : nat) : (n <= m)%nat -> ofNat n <= ofNat m.
Proof. intros H. unfold ofNat. rewrite <- Zle_Qle. lia. Qed.

Lemma ofNat_nonzero (n : nat) : n <> O -> ~ ofNat n == 0.
Proof. intros H. unfold ofNat, Qeq. simpl. lia. Qed.

Lemma ofNat_pos (n : nat) : n <> O -> 0 < ofNat n.
Proof. intros H. unfold ofNat. change 0 with (inject_Z 0). rewrite <- Zlt_Qlt. lia. Qed.

Lemma rate_le (t n n' : nat) : (n <= n')%nat -> ofNat n / ofNat t <= ofNat n' / ofNat t.
Proof.
  intros H. unfold Qdiv. apply Qmult_le_compat_r.
  - now apply ofNat_le.
  - apply Qinv_le_0_compat, ofNat_nonneg.
Qed.

Lemma rate_nonneg (t n : nat) : 0 <= ofNat n / ofNat t.
Proof.
  unfold Qdiv. apply Qmult_le_0_compat.
  - apply ofNat_nonneg.
  - apply Qinv_le_0_compat, ofNat_nonneg.
Qed.

Lemma mathRound_le (x y : Q) : x <= y -> mathRound x <= mathRound y.
Proof.
  intros H. unfold mathRound. rewrite <- Zle_Qle. apply Qfloor_resp_le. lra.
Qed.

Lemma mathRound_within (v : Q) : v - (1 # 2) <= mathRound v <= v + (1 # 2).
Proof.
  unfold mathRound.
  pose proof (Qfloor_le (v + (1 # 2))). pose proof (Qlt_floor (v + (1 # 2))) as H1.
  rewrite inject_Z_plus in H1. change (inject_Z 1) with 1 in H1. lra.
Qed.

Lemma round_le_100 (x : Q) : x <= 100 -> Float64.round x <= 100.
Proof.
  intros H. apply Qle_trans with (Float64.round 100); [now apply round_le|].
  vm_compute. discriminate.
Qed.

Lemma round_le_1000 (x : Q) : x <= 1000 -> Float64.round x <= 1000.
Proof.
  intros H. apply Qle_trans with (Float64.round 1000); [now apply round_le|].
  vm_compute. discriminate.
Qed.

(** [Math.max(0, 100 - percent)] *)
Lemma clamped_bounds (p : Q) : 0 <= p -> 0 <= Qmax 0 (Float64.sub 100 p) <= 100.
Proof.
  intros Hp. split; [apply Q.le_max_l|].
  apply Q.max_lub; [discriminate|].
  apply round_le_100. lra.
Qed.

Lemma percent_nonneg (k t : nat) : 0 <= Float64.mul (Float64.div (ofNat k) (ofNat t)) 100.
Proof.
  apply round_nonneg. apply Qmult_le_0_compat; [|discriminate].
  apply round_nonneg, rate_nonneg.
Qed.

(** [Math.round(score * 10)] *)
Lemma tenths_bounds (s : Q) :
  0 <= s <= 100 -> 0 <= mathRound (Float64.mul s 10) <= 1000.
Proof.
  intros [Hlo Hhi]. split.
  - change 0 with (mathRound 0). apply mathRound_le, round_nonneg. lra.
  - change 1000 with (mathRound 1000). apply mathRound_le.
    apply round_le_1000. lra.
Qed.

Lemma decimal_bounds (n : Q) : 0 <= n <= 1000 -> 0 <= Float64.div n 10 <= 100.
Proof.
  intros [Hlo Hhi]. unfold Float64.div. split.
  - apply round_nonneg. apply Qle_shift_div_l; [reflexivity|lra].
  - apply round_le_100. apply Qle_shift_div_r; [reflexivity|lra].
Qed.

Lemma decimalScore_bounds (k t : nat) : 0 <= decimalScore k t <= 100.
Proof.
  unfold decimalScore.
  apply decimal_bounds, tenths_bounds, clamped_bounds, percent_nonneg.
Qed.

Lemma decimalScore_antitone (t k k' : nat) :
  (k <= k')%nat -> decimalScore k' t <= decimalScore k t.
Proof.
  intros H. unfold decimalScore, Float64.div, Float64.mul, Float64.sub.
  apply round_le. apply Qmult_le_compat_r; [|discriminate].
  apply mathRound_le, round_le. apply Qmult_le_compat_r; [|discriminate].
  apply Q.max_le_compat_l, round_le.
  apply Qplus_le_r, Qopp_le_compat, round_le.
  apply Qmult_le_compat_r; [|discriminate].
  apply round_le. now apply rate_le.
Qed.

(** The score has one decimal place: it is the number nearest to [n / 10]
    for an integer [n]. *)
Lemma decimalScore_form (k t : nat) :
  exists n : Z, (0 <= n <= 1000)%Z /\ decimalScore k t = Float64.div (inject_Z n) 10.
Proof.
  unfold decimalScore. unfold mathRound at 1.
  eexists. split; [|reflexivity].
  pose proof (tenths_bounds _ (clamped_bounds _ (percent_nonneg k t))) as H.
  unfold mathRound in H. change 0 with (inject_Z 0) in H. change 1000 with (inject_Z 1000) in H.
  rewrite <- !Zle_Qle in H. exact H.
Qed.

Lemma max_zero_near (a b eps : Q) :
  b - eps <= a <= b + eps -> Qmax 0 b - eps <= Qmax 0 a <= Qmax 0 b + eps.
Proof.
  intros H.
  destruct (Q.max_spec 0 a) as [[? Ha]|[? Ha]], (Q.max_spec 0 b) as [[? Hb]|[? Hb]];
    rewrite Ha, Hb; lra.
Qed.

(** [Math.max(0, 100 - rate * 100)] is [100 - min(100, 100 * n / total)] in
    exact arithmetic. *)
Lemma clamped_score_eq (t n : nat) :
  t <> O ->
  Qmax 0 (100 - ofNat n / ofNat t * 100) == 100 - Qmin 100 (100 * ofNat n / ofNat t).
Proof.
  intros Ht.
  assert (Hy : 100 * ofNat n / ofNat t == ofNat n / ofNat t * 100).
  { field. now apply ofNat_nonzero. }
  rewrite Hy. set (y := ofNat n / ofNat t * 100).
  destruct (Qlt_le_dec 100 y) as [Hgt | Hle].
  - rewrite (Q.min_l 100 y) by lra. rewrite (Q.max_l 0 (100 - y)) by lra. lra.
  - rewrite (Q.min_r 100 y) by lra. rewrite (Q.max_r 0 (100 - y)) by lra. lra.
Qed.

(** Six roundings and one [Math.round] apart from the exact value: the
    roundings add less than [10^-12], [Math.round] at most half a tenth. *)
Lemma decimalScore_near (k t : nat) :
  t <> O -> (k <= 3 * t)%nat ->
  Qabs (decimalScore k t - (100 - Qmin 100 (100 * ofNat k / ofNat t)))
    <= (1 # 20) + (1 # 1000000000000).
Proof.
  intros Ht Hk.
  rewrite <- (clamped_score_eq t k Ht).
  unfold decimalScore, Float64.div, Float64.mul, Float64.sub.
  set (x := ofNat k / ofNat t).
  assert (Hx : 0 <= x <= 3).
  { split; [apply rate_nonneg|].
    apply Qle_shift_div_r; [now apply ofNat_pos|].
    change 3 with (ofNat 3). unfold ofNat. rewrite <- inject_Z_mult, <- Zle_Qle. lia. }
  clearbody x.
  pose proof (round_within x 4 (1 # 1000000000000000) 2 ltac:(lia)
                ltac:(vm_compute; discriminate) ltac:(vm_compute; discriminate)
                ltac:(lra)) as Hr.
  set (r := Float64.round x) in *. clearbody r.
  pose proof (round_within (r * 100) 512 (1 # 10000000000000) 9 ltac:(lia)
                ltac:(vm_compute; discriminate) ltac:(vm_compute; discriminate)
                ltac:(lra)) as Hp.
  set (p := Float64.round (r * 100)) in *. clearbody p.
  pose proof (round_within (100 - p) 256 (1 # 10000000000000) 8 ltac:(lia)
                ltac:(vm_compute; discriminate) ltac:(vm_compute; discriminate)
                ltac:(lra)) as Hd.
  set (d := Float64.round (100 - p)) in *. clearbody d.
  assert (Hs : Qmax 0 (100 - x * 100) - (3 # 10000000000000) <= Qmax 0 d
               <= Qmax 0 (100 - x * 100) + (3 # 10000000000000)).
  { apply max_zero_near. lra. }
  assert (He : 0 <= Qmax 0 (100 - x * 100) <= 100).
  { split; [apply Q.le_max_l|]. apply Q.max_lub; [discriminate|lra]. }
  set (exact := Qmax 0 (100 - x * 100)) in *. clearbody exact.
  set (s := Qmax 0 d) in *. clearbody s.
  pose proof (round_within (s * 10) 1024 (2 # 10000000000000) 10 ltac:(lia)
                ltac:(vm_compute; discriminate) ltac:(vm_compute; discriminate)
                ltac:(lra)) as Hv.
  set (v := Float64.round (s * 10)) in *. clearbody v.
  pose proof (mathRound_within v) as Hn.
  set (n := mathRound v) in *. clearbody n.
  set (w := n / 10).
  assert (Hw : w == n * (1 # 10)) by (unfold w; field).
  clearbody w.
  pose proof (round_within w 128 (1 # 10000000000000) 7 ltac:(lia)
                ltac:(vm_compute; discriminate) ltac:(vm_compute; discriminate)
                ltac:(lra)) as Hfinal.
  apply Qabs_Qle_condition. split; lra.
Qed.

Lemma complianceScore_nonempty (t b c : nat) :
  t <> O -> complianceScore t b c = decimalScore (b + c * 2) t.
Proof.
  intros Ht. unfold complianceScore, decimalScore. cbv zeta.
  destruct (t =? 0)%nat eqn:E; [apply Nat.eqb_eq in E; contradiction | reflexivity].
Qed.

Lemma complianceScore_bounds (t b c : nat) : 0 <= complianceScore t b c <= 100.
Proof.
  destruct (Nat.eq_dec t 0) as [-> | Ht]; [split; discriminate|].
  rewrite (complianceScore_nonempty t b c Ht). apply decimalScore_bounds.
Qed.

Lemma complianceScore_antitone (t b c b' c' : nat) :
  (b <= b')%nat -> (c <= c')%nat -> complianceScore t b' c' <= complianceScore t b c.
Proof.
  intros Hb Hc.
  destruct (Nat.eq_dec t 0) as [-> | Ht]; [apply Qle_refl|].
  rewrite !(complianceScore_nonempty t _ _ Ht). apply decimalScore_antitone. lia.
Qed.

Lemma complianceScore_one_decimal (t b c : nat) :
  exists n : Z, (0 <= n <= 1000)%Z /\ complianceScore t b c == Float64.div (inject_Z n) 10.
Proof.
  destruct (Nat.eq_dec t 0) as [-> | Ht].
  - exists 1000%Z. split; [lia|]. vm_compute. reflexivity.
  - rewrite (complianceScore_nonempty t b c Ht).
    destruct (decimalScore_form (b + c * 2) t) as (n & Hn & ->).
    exists n. split; [exact Hn | reflexivity].
Qed.

Lemma complianceScore_near_spec (t b c : nat) :
  (b <= t)%nat -> (c <= t)%nat ->
  Qabs (complianceScore t b c - specScore t b c) <= (1 # 20) + (1 # 1000000000000).
Proof.
  intros Hb Hc. unfold specScore.
  destruct (Nat.eq_dec t 0) as [-> | Ht]; [vm_compute; discriminate|].
  rewrite (complianceScore_nonempty t b c Ht).
  destruct (t =? 0)%nat eqn:E; [apply Nat.eqb_eq in E; contradiction|].
  replace (b + 2 * c)%nat with (b + c * 2)%nat by lia.
  apply decimalScore_near; [exact Ht | lia].
Qed.

Lemma sameScoresUpTo_all (n t b c : nat) :
  sameScoresUpTo n = true ->
  (t <= n)%nat -> (b <= t)%nat -> (c <= t)%nat -> sameScore t b c = true.
Proof.
  unfold sameScoresUpTo. intros Hall Ht Hb Hc.
  rewrite forallb_forall in Hall.
  specialize (Hall t ltac:(apply in_seq; lia)).
  rewrite forallb_forall in Hall.
  specialize (Hall b ltac:(apply in_seq; lia)).
  rewrite forallb_forall in Hall.
  apply Hall. apply in_seq. lia.
Qed.

Lemma sameScoresUpTo_16 : sameScoresUpTo 16 = true.
Proof. vm_compute. reflexivity. Qed.

(** The rounding of [Float64] is the rounding of binary64: on every queue
    of up to 16 items, whatever the counts of blocked and of critical items,
    the score is the one that the kernel's binary64 arithmetic gives. *)
Lemma complianceScore_agrees_with_binary64 (t b c : nat) :
  (t <= 16)%nat -> (b <= t)%nat -> (c <= t)%nat ->
  exists q,
    Binary64.toQ (Binary64.complianceScore t b c) = Some q /\ q == complianceScore t b c.
Proof.
  intros Ht Hb Hc.
  pose proof (sameScoresUpTo_all 16 t b c sameScoresUpTo_16 Ht Hb Hc) as Hsame.
  unfold sameScore in Hsame.
  destruct (Binary64.toQ (Binary64.complianceScore t b c)) as [q|]; [|discriminate].
  exists q. split; [reflexivity|]. now apply Qeq_bool_iff.
Qed.

End Score.

Lemma filter_length_le {T : Type} (P : T -> bool) (l : list T) :
  List.length (filter P l) <= List.length l.
Proof.
  induction l as [|x l IH]; simpl; [lia|]. destruct (P x); simpl; lia.
Qed.

Lemma getComplianceScore_run (w : World) :
  getComplianceScore w =
    (Returned (complianceScore (List.length (moderationQueue w))
                               (countBlocked (moderationQueue w))
                               (countCritical (moderationQueue w))), w).
Proof. reflexivity. Qed.

(** C8, as the code has it. The score is the value of the formula,
    evaluated in the arithmetic of numbers and rounded to one decimal place
    by [Math.round(score * 10) / 10]: it is the number nearest to [n / 10]
    for an integer [n] from 0 to 1000, and it is within [0.05 + 10^-12] of
    the exact value of the formula. It lies in [0,100], it is 100 on an
    empty queue, and for a fixed number of queue items it does not increase
    when the count of blocked items or the count of critical items
    increases. *)
Theorem compliance_score_rounded_bounded_monotone (w w' : World) :
  List.length (moderationQueue w) = List.length (moderationQueue w') ->
  (countBlocked (moderationQueue w) <= countBlocked (moderationQueue w'))%nat ->
  (countCritical (moderationQueue w) <= countCritical (moderationQueue w'))%nat ->
  exists s s',
    getComplianceScore w = (Returned s, w) /\
    getComplianceScore w' = (Returned s', w') /\
    (exists n : Z, (0 <= n <= 1000)%Z /\ s == Float64.div (inject_Z n) 10)%Q /\
    (Qabs (s - specScore (List.length (moderationQueue w))
                         (countBlocked (moderationQueue w))
                         (countCritical (moderationQueue w)))
       <= (1 # 20) + (1 # 1000000000000))%Q /\
    (0 <= s <= 100)%Q /\
    (moderationQueue w = [] -> s = 100%Q) /\
    (s' <= s)%Q.
Proof.
  intros Hlen Hb Hc.
  do 2 eexists. split; [apply getComplianceScore_run|].
  split; [apply getComplianceScore_run|]. split; [|split; [|split; [|split]]].
  - apply complianceScore_one_decimal.
  - apply complianceScore_near_spec; apply filter_length_le.
  - apply complianceScore_bounds.
  - intros ->. reflexivity.
  - rewrite <- Hlen. now apply complianceScore_antitone.
Qed.

Lemma compliance_score_rounded_bounded_monotone_witness :
  exists s s',
    getComplianceScore threeItemsOneBlocked = (Returned s, threeItemsOneBlocked) /\
    getComplianceScore threeItemsTwoBlocked = (Returned s', threeItemsTwoBlocked) /\
    (s' <= s)%Q.
Proof.
  destruct (compliance_score_rounded_bounded_monotone threeItemsOneBlocked threeItemsTwoBlocked
              eq_refl ltac:(vm_compute; lia) ltac:(vm_compute; lia))
    as (s & s' & Hs & Hs' & _ & _ & _ & _ & Hle).
  exists s, s'. repeat split; assumption.
Defined.

(** With three items of which one is blocked the formula gives [200/3]; the
    code returns the number nearest to 66.7, which is neither [200/3] nor the
    number nearest to it. *)
Lemma score_is_rounded_not_exact :
  exists s,
    fst (getComplianceScore threeItemsOneBlocked) = Returned s /\
    (s == Float64.round 66.7)%Q /\
    specScore 3 1 0 = (200 # 3)%Q /\
    ~ (s == specScore 3 1 0)%Q /\
    ~ (s == Float64.round (specScore 3 1 0))%Q.
Proof.
  eexists. split; [reflexivity|].
  split; [vm_compute; reflexivity|]. split; [vm_compute; reflexivity|].
  split; vm_compute; discriminate.
Qed.

(** The rounding of each operation shows in the result. With 80 items of
    which 49 are blocked the exact value is 38.75, which [Math.round] would
    take to 38.8; [0.6125 * 100] is rounded to a number above 61.25, the score
    before [Math.round] is below 38.75, and the code returns the number
    nearest to 38.7. *)
Lemma score_of_80_items_49_blocked :
  (specScore 80 49 0 == 38.75)%Q /\
  (complianceScore 80 49 0 == Float64.round 38.7)%Q /\
  ~ (complianceScore 80 49 0 == Float64.round 38.8)%Q /\
  sameScore 80 49 0 = true.
Proof.
  split; [vm_compute; reflexivity|]. split; [vm_compute; reflexivity|].
  split; [vm_compute; discriminate | vm_compute; reflexivity].
Qed.

(** * Further properties *)

(** ** The classifier, whatever the state of the instance *)

Lemma test_miss_resets (re re' : RegExp) (s : string) :
  test re s = (false, re') -> re' = fresh (source re).
Proof.
  unfold test, fresh.
  destruct (seek (lastIndex re) false (list_ascii_of_string s)) as [[p rest]|].
  - destruct (search (source re) p rest); intros H; inversion H; reflexivity.
  - intros H; inversion H; reflexivity.
Qed.

Lemma testAny_miss_resets (ps ps' : list RegExp) (s : string) :
  testAny ps s = (false, ps') -> ps' = map fresh (map source ps).
Proof.
  revert ps'. induction ps as [|re ps IH]; intros ps' H; simpl in H.
  - inversion H; reflexivity.
  - destruct (test re s) as [hit re1] eqn:Htest. destruct hit; [discriminate|].
    destruct (testAny ps s) as [hit' rest']. inversion H; subst.
    simpl. rewrite (test_miss_resets _ _ _ Htest). now rewrite (IH rest' eq_refl).
Qed.

(** The run of [moderateMessage], tier by tier. *)
Lemma moderateMessage_trace (text : string) (fanId : option string) (w : World) :
  let svc := moderationService w in
  let esc := testAny (escalationPatterns svc) text in
  let ban := testAny (bannedPatterns svc) text in
  let sus := testAny (suspiciousPatterns svc) text in
  moderateMessage text fanId w =
    if fst esc then
      (Returned escalateVerdict,
       enqueue text "escalation_pattern" critical
         (withModerationService
            (mkService (bannedPatterns svc) (suspiciousPatterns svc) (snd esc)) w))
    else if fst ban then
      (Returned blockVerdict,
       enqueue text "banned_pattern" high
         (withModerationService
            (mkService (snd ban) (suspiciousPatterns svc) (snd esc)) w))
    else if fst sus then
      (Returned reviewVerdict,
       enqueue text "suspicious_pattern" medium
         (withModerationService (mkService (snd ban) (snd sus) (snd esc)) w))
    else
      (Returned (allowVerdict text),
       withModerationService (mkService (snd ban) (snd sus) (snd esc)) w).
Proof.
  cbv zeta.
  unfold moderateMessage, bind, testEscalationPatterns, testBannedPatterns,
    testSuspiciousPatterns.
  destruct (testAny (escalationPatterns (moderationService w)) text) as [[|] esc'];
    [reflexivity|].
  cbn [moderationService withModerationService bannedPatterns suspiciousPatterns
       escalationPatterns fst snd].
  destruct (testAny (bannedPatterns (moderationService w)) text) as [[|] ban'];
    [reflexivity|].
  cbn [moderationService withModerationService bannedPatterns suspiciousPatterns
       escalationPatterns fst snd].
  destruct (testAny (suspiciousPatterns (moderationService w)) text) as [[|] sus'];
    [reflexivity|].
  cbn [fst snd]. unfold allowVerdict.
  destruct (String.length text <? 3)%nat; reflexivity.
Qed.

(** X1. A verdict other than [allow] is never a false alarm, whatever calls
    the shared instance has served before: a text is escalated only if it
    matches an escalation pattern, blocked only if it matches a block
    pattern, and sent to review only if it matches a review pattern. *)
Theorem verdict_needs_a_matching_pattern
  (text : string) (w : World) (a : Action) :
  instancePatterns (moderationService w) ->
  classifierVerdict text w = Some a ->
  match a with
  | escalate => matchesTier escalationSources text = true
  | block => matchesTier bannedSources text = true
  | review => matchesTier suspiciousSources text = true
  | allow => True
  end.
Proof.
  intros (Hb & Hs & He). unfold classifierVerdict.
  rewrite (moderateMessage_trace text None w). cbv zeta.
  pose proof (testAny_hit_matches (escalationPatterns (moderationService w)) text) as HE.
  pose proof (testAny_hit_matches (bannedPatterns (moderationService w)) text) as HB.
  pose proof (testAny_hit_matches (suspiciousPatterns (moderationService w)) text) as HS.
  rewrite He in HE. rewrite Hb in HB. rewrite Hs in HS.
  destruct (fst (testAny (escalationPatterns (moderationService w)) text)).
  { intros H; inversion H; subst a. now apply HE. }
  destruct (fst (testAny (bannedPatterns (moderationService w)) text)).
  { intros H; inversion H; subst a. now apply HB. }
  destruct (fst (testAny (suspiciousPatterns (moderationService w)) text)).
  { intros H; inversion H; subst a. now apply HS. }
  intros H; inversion H; subst a. exact I.
Qed.

Lemma verdict_needs_a_matching_pattern_witness :
  matchesTier bannedSources "let's meet at my hotel" = true.
Proof.
  exact (verdict_needs_a_matching_pattern "let's meet at my hotel" demoWorld block
           (conj eq_refl (conj eq_refl eq_refl)) eq_refl).
Defined.

(** X2. An [allow] verdict leaves the shared instance as a new one, every
    [lastIndex] at 0: the call that follows an allowed message classifies its
    text by the tiers alone, in the order escalation, block, review. So a
    text that matches some pattern is never allowed twice in a row. *)
Theorem allow_verdict_resets_the_instance
  (text : string) (fanId : option string) (w : World) :
  instancePatterns (moderationService w) ->
  classifierVerdict text w = Some allow ->
  let w' := snd (moderateMessage text fanId w) in
  moderationService w' = newModerationService /\
  (forall next, fst (moderateMessage next fanId w') = Returned (tierVerdict next)) /\
  (matchesNoTier text = false -> classifierVerdict text w' <> Some allow).
Proof.
  intros (Hb & Hs & He) Hv w'.
  assert (Hsvc : moderationService w' = newModerationService).
  { subst w'. revert Hv. unfold classifierVerdict.
    change (moderateMessage text None w) with (moderateMessage text fanId w).
    rewrite (moderateMessage_trace text fanId w). cbv zeta.
    destruct (testAny (escalationPatterns (moderationService w)) text) as [[|] esc'] eqn:HE;
      cbn [fst snd]; [discriminate|].
    destruct (testAny (bannedPatterns (moderationService w)) text) as [[|] ban'] eqn:HB;
      cbn [fst snd]; [discriminate|].
    destruct (testAny (suspiciousPatterns (moderationService w)) text) as [[|] sus'] eqn:HS;
      cbn [fst snd]; [discriminate|].
    intros _. cbn [moderationService withModerationService].
    rewrite (testAny_miss_resets _ _ _ HE), (testAny_miss_resets _ _ _ HB),
      (testAny_miss_resets _ _ _ HS), He, Hb, Hs.
    reflexivity. }
  split; [exact Hsvc|]. split.
  - intros next. now apply moderateMessage_on_new_instance.
  - intros Hmatch. unfold classifierVerdict.
    rewrite (moderateMessage_on_new_instance text None w' Hsvc).
    unfold tierVerdict, matchesNoTier in *.
    destruct (matchesTier escalationSources text); [discriminate|].
    destruct (matchesTier bannedSources text); [discriminate|].
    destruct (matchesTier suspiciousSources text); [discriminate|].
    discriminate.
Qed.

Lemma allow_verdict_resets_the_instance_witness :
  let afterThree := snd (moderateMessage "kill" None
                      (snd (moderateMessage "kill" None
                         (snd (moderateMessage "kill" None emptyWorld))))) in
  classifierVerdict "kill" afterThree = Some allow /\
  classifierVerdict "kill" (snd (moderateMessage "kill" None afterThree)) <> Some allow.
Proof.
  intros afterThree. split; [vm_compute; reflexivity|].
  refine (proj2 (proj2 (allow_verdict_resets_the_instance "kill" None afterThree _ _)) _).
  - repeat split.
  - vm_compute; reflexivity.
  - vm_compute; reflexivity.
Defined.

Lemma short_text_matches_no_tier (text : string) :
  String.length text < 3 -> matchesNoTier text = true.
Proof.
  intros Hshort.
  assert (Htier : forall tier, forallb (fun r => (3 <=? minLength r)%nat) tier = true ->
                               matchesTier tier text = false).
  { intros tier Hmin. unfold matchesTier.
    induction tier as [|r tier IH]; [reflexivity|].
    cbn [forallb existsb] in *. apply andb_true_iff in Hmin. destruct Hmin as [Hr Htl].
    apply Nat.leb_le in Hr.
    rewrite (short_text_matches_nothing r text) by lia. now rewrite IH. }
  unfold matchesNoTier. now rewrite !Htier by reflexivity.
Qed.

(** X3. A message of one or two characters reaches the length check in every
    state of the instance, no pattern being able to match so short a text: it
    is allowed with confidence 0.8 and nothing is queued. *)
Theorem short_message_allowed_in_every_state
  (text : string) (fanId : option string) (w : World) :
  instancePatterns (moderationService w) ->
  String.length text < 3 ->
  fst (moderateMessage text fanId w) = Returned (mkResult allow None low 0.8%Q) /\
  moderationQueue (snd (moderateMessage text fanId w)) = moderationQueue w.
Proof.
  intros Hinst Hshort.
  rewrite (moderateMessage_no_match text fanId w Hinst (short_text_matches_no_tier text Hshort)).
  split; [|reflexivity].
  cbn [fst]. unfold allowVerdict. apply Nat.ltb_lt in Hshort. now rewrite Hshort.
Qed.

Lemma short_message_allowed_in_every_state_witness :
  fst (moderateMessage "no" None demoWorld) = Returned (mkResult allow None low 0.8%Q) /\
  moderationQueue (snd (moderateMessage "no" None demoWorld)) = moderationQueue demoWorld.
Proof.
  apply (short_message_allowed_in_every_state "no" None demoWorld).
  - repeat split.
  - vm_compute. lia.
Defined.

(** ** Stop words are whole words *)

Lemma prefix_has_space (p : string) :
  forall s, String.prefix p s = true -> hasSpace p = true -> hasSpace s = true.
Proof.
  induction p as [|a p IH]; intros s Hpre Hsp; [discriminate|].
  destruct s as [|b s]; simpl in Hpre; [discriminate|].
  destruct (ascii_dec a b) as [->|]; [|discriminate].
  simpl in *. destruct (isSpace b); [reflexivity|]. simpl in *. now apply IH.
Qed.

Lemma includes_has_space (sub : string) :
  forall s, includes s sub = true -> hasSpace sub = true -> hasSpace s = true.
Proof.
  induction s as [|c s IH]; intros Hinc Hsp; simpl in Hinc.
  - rewrite orb_false_r in Hinc. now apply (prefix_has_space sub "").
  - apply orb_true_iff in Hinc. destruct Hinc as [Hpre | Hrest].
    + now apply (prefix_has_space sub).
    + simpl. rewrite (IH Hrest Hsp). apply orb_true_r.
Qed.

Lemma substring_has_space :
  forall s n m, hasSpace (substring n m s) = true -> hasSpace s = true.
Proof.
  induction s as [|c s IH]; intros n m H.
  - destruct n, m; simpl in H; discriminate.
  - destruct n as [|n].
    + destruct m as [|m]; simpl in H; [discriminate|].
      simpl. destruct (isSpace c); [reflexivity|]. simpl in *. now apply (IH 0 m).
    + simpl in H. simpl. rewrite (IH n m H). apply orb_true_r.
Qed.

Lemma endsWith_has_space (s suf : string) :
  endsWith s suf = true -> hasSpace suf = true -> hasSpace s = true.
Proof.
  unfold endsWith. intros H Hsp. apply andb_true_iff in H. destruct H as [_ Heq].
  apply String.eqb_eq in Heq. rewrite <- Heq in Hsp.
  now apply substring_has_space in Hsp.
Qed.

(** X4. Stop words count as whole words only. A message whose text, once
    lower-cased and trimmed, contains no space is a stop request exactly
    when that text is one of the six stop words: a stop word inside a longer
    word, or next to punctuation, is not a request. *)
Theorem single_word_is_stop_request_iff_stop_word (text : string) :
  hasSpace (trim (toLowerCase text)) = false ->
  checkStopWords text = arrayIncludes stopWords (trim (toLowerCase text)).
Proof.
  intros Hnospace. unfold checkStopWords, arrayIncludes, stopWords.
  set (n := trim (toLowerCase text)) in *.
  assert (Hinc : forall sub, hasSpace sub = true -> includes n sub = false).
  { intros sub Hsp. destruct (includes n sub) eqn:E; [|reflexivity].
    rewrite (includes_has_space sub n E Hsp) in Hnospace. discriminate. }
  assert (Hpre : forall sub, hasSpace sub = true -> startsWith n sub = false).
  { intros sub Hsp. unfold startsWith. destruct (String.prefix sub n) eqn:E; [|reflexivity].
    rewrite (prefix_has_space sub n E Hsp) in Hnospace. discriminate. }
  assert (Hend : forall sub, hasSpace sub = true -> endsWith n sub = false).
  { intros sub Hsp. destruct (endsWith n sub) eqn:E; [|reflexivity].
    rewrite (endsWith_has_space n sub E Hsp) in Hnospace. discriminate. }
  cbn [existsb append].
  rewrite !Hinc, !Hpre, !Hend by reflexivity.
  rewrite !orb_false_r. reflexivity.
Qed.

Lemma single_word_is_stop_request_iff_stop_word_witness :
  checkStopWords "Nobody" = false /\ checkStopWords "  QUIT " = true.
Proof.
  split.
  - exact (single_word_is_stop_request_iff_stop_word "Nobody" eq_refl).
  - exact (single_word_is_stop_request_iff_stop_word "  QUIT " eq_refl).
Defined.

(** ** Tables that only grow *)

Section Growth.

Context {X : Type} (table : World -> list X) (P : X -> Prop).

Lemma grows_ret {A : Type} (a : A) : grows table P (ret a).
Proof. intros w. exists []. split; [reflexivity | constructor]. Qed.

Lemma grows_throw {A : Type} (e : string) : grows table P (@throw A e).
Proof. intros w. exists []. split; [reflexivity | constructor]. Qed.

Lemma grows_gets {A : Type} (f : World -> A) : grows table P (gets f).
Proof. intros w. exists []. split; [reflexivity | constructor]. Qed.

Lemma grows_modify_keep (f : World -> World) :
  (forall w, table (f w) = table w) -> grows table P (modify f).
Proof. intros H w. exists []. split; [apply H | constructor]. Qed.

Lemma grows_modify_cons (f : World -> World) (x : X) :
  (forall w, table (f w) = x :: table w) -> P x -> grows table P (modify f).
Proof.
  intros H Hx w. exists [x]. split; [apply H | constructor; [exact Hx | constructor]].
Qed.

Lemma grows_bind {A B : Type} (m : Async A) (k : A -> Async B) :
  grows table P m -> (forall a, grows table P (k a)) -> grows table P (bind m k).
Proof.
  unfold grows, bind. intros Hm Hk w.
  destruct (Hm w) as (new1 & H1 & HP1).
  destruct (m w) as [[a|e] w1]; cbn [snd] in *.
  - destruct (Hk a w1) as (new2 & H2 & HP2).
    exists (new2 ++ new1). split.
    + rewrite H2, H1. apply app_assoc.
    + apply Forall_app. split; assumption.
  - exists new1. split; assumption.
Qed.

Lemma grows_tryCatch {A : Type} (m : Async A) (h : string -> Async A) :
  grows table P m -> (forall e, grows table P (h e)) -> grows table P (tryCatch m h).
Proof.
  unfold grows, tryCatch. intros Hm Hh w.
  destruct (Hm w) as (new1 & H1 & HP1).
  destruct (m w) as [[a|e] w1]; cbn [snd] in *.
  - exists new1. split; assumption.
  - destruct (Hh e w1) as (new2 & H2 & HP2).
    exists (new2 ++ new1). split.
    + rewrite H2, H1. apply app_assoc.
    + apply Forall_app. split; assumption.
Qed.

End Growth.

Lemma moderateMessage_grows {X : Type} (table : World -> list X) (P : X -> Prop)
  (text : string) (fanId : option string) :
  (forall w svc, table (withModerationService svc w) = table w) ->
  (forall w why sev, table (enqueue text why sev w) = table w \/
                     exists x, table (enqueue text why sev w) = x :: table w /\ P x) ->
  grows table P (moderateMessage text fanId).
Proof.
  intros Hsvc Hq w.
  destruct (moderateMessage_cases text fanId w) as (svc' & _ & [H|[H|[H|H]]]);
    rewrite H; cbn [snd];
    try (destruct (Hq (withModerationService svc' w) "escalation_pattern" critical)
           as [Hkeep | (x & Hcons & Hx)];
         [exists []; rewrite Hkeep, Hsvc; split; [reflexivity | constructor]
         |exists [x]; rewrite Hcons, Hsvc; split; [reflexivity | repeat constructor; exact Hx]]);
    try (destruct (Hq (withModerationService svc' w) "banned_pattern" high)
           as [Hkeep | (x & Hcons & Hx)];
         [exists []; rewrite Hkeep, Hsvc; split; [reflexivity | constructor]
         |exists [x]; rewrite Hcons, Hsvc; split; [reflexivity | repeat constructor; exact Hx]]);
    try (destruct (Hq (withModerationService svc' w) "suspicious_pattern" medium)
           as [Hkeep | (x & Hcons & Hx)];
         [exists []; rewrite Hkeep, Hsvc; split; [reflexivity | constructor]
         |exists [x]; rewrite Hcons, Hsvc; split; [reflexivity | repeat constructor; exact Hx]]).
  exists []. rewrite Hsvc. split; [reflexivity | constructor].
Qed.

(** [grow tac] follows the structure of an operation; [tac] shows that a row
    it inserts has the property asked for. *)
Ltac grow_step tac :=
  first
    [ match goal with
      | |- grows _ _ (moderateMessage _ _) =>
          apply moderateMessage_grows;
          [ intros; reflexivity
          | intros; first [ left; reflexivity
                          | right; eexists; split; [reflexivity | tac] ] ]
      end
    | apply grows_ret
    | apply grows_throw
    | apply grows_gets
    | apply grows_modify_keep; intros; reflexivity
    | eapply grows_modify_cons; [intros; reflexivity | tac]
    | apply grows_bind; [|intros]
    | apply grows_tryCatch; [|intros]
    | match goal with
      | |- grows _ _ (match ?x with _ => _ end) => destruct x
      end
    | solve [intros ?; exists []; split; [reflexivity | constructor]] ].

Ltac grow tac := cbv zeta; repeat (grow_step tac; cbv zeta).


Lemma postAiReply_audit_names_no_creator (llm : LLMService) (fanId personaId message : string) :
  grows auditLogs namesNoCreator (postAiReply llm fanId personaId message).
Proof.
  unfold postAiReply, replyAfterModeration, respondInConversation, processToolCalls.
  grow ltac:(split; reflexivity).
Qed.

Lemma postAiReply_queue_grows (llm : LLMService) (fanId personaId message : string) :
  grows moderationQueue (fun i => status i = "pending" /\ mq_content i = message)
        (postAiReply llm fanId personaId message).
Proof.
  unfold postAiReply, replyAfterModeration, respondInConversation, processToolCalls.
  grow ltac:(split; reflexivity).
Qed.

Lemma postAiReply_messages_grow (llm : LLMService) (fanId personaId message : string) :
  grows messages (fun m => moderationStatus m = "approved")
        (postAiReply llm fanId personaId message).
Proof.
  unfold postAiReply, replyAfterModeration, respondInConversation, processToolCalls.
  grow ltac:(reflexivity).
Qed.

(** X5. A turn of the reply handler only ever adds rows, whatever its
    outcome: the audit log, the moderation queue and the message table after
    it are the ones before it with new rows in front. Every queue row it adds
    is pending and holds the inbound text, every message it adds is stored as
    approved, and no earlier row is changed or removed. *)
Theorem reply_turn_only_adds_rows
  (llm : LLMService) (fanId personaId message : string) (w : World) :
  let w' := snd (postAiReply llm fanId personaId message w) in
  (exists new, auditLogs w' = new ++ auditLogs w) /\
  (exists new, moderationQueue w' = new ++ moderationQueue w /\
               Forall (fun i => status i = "pending" /\ mq_content i = message) new) /\
  (exists new, messages w' = new ++ messages w /\
               Forall (fun m => moderationStatus m = "approved") new).
Proof.
  cbv zeta. split; [|split].
  - destruct (postAiReply_audit_names_no_creator llm fanId personaId message w)
      as (new & H & _).
    now exists new.
  - apply postAiReply_queue_grows.
  - apply postAiReply_messages_grow.
Qed.

(** ** The compliance report *)

Lemma filter_none {T : Type} (p : T -> bool) (l : list T) :
  Forall (fun x => p x = false) l -> filter p l = [].
Proof.
  induction 1 as [|x l Hx _ IH]; simpl; [reflexivity|]. now rewrite Hx.
Qed.

(** The entries a report is computed from. *)
Lemma generateComplianceReport_reads_relevant_logs
  (creator : string) (startDate endDate : nat) (w1 w2 : World) :
  filter (fun l => (startDate <=? al_createdAt l)%nat && (al_createdAt l <=? endDate)%nat &&
                   (match al_userId l with
                    | Some u => String.eqb u creator
                    | None => false
                    end || jsonIsString (jsonField "creatorId" (details l)) creator))
         (auditLogs w1) =
  filter (fun l => (startDate <=? al_createdAt l)%nat && (al_createdAt l <=? endDate)%nat &&
                   (match al_userId l with
                    | Some u => String.eqb u creator
                    | None => false
                    end || jsonIsString (jsonField "creatorId" (details l)) creator))
         (auditLogs w2) ->
  fst (generateComplianceReport creator startDate endDate w1) =
  fst (generateComplianceReport creator startDate endDate w2).
Proof.
  intros H. unfold generateComplianceReport, generateComplianceReportFrom, tryCatch, getAuditLogs.
  rewrite (bind_run _ (gets_run _ w1)), (bind_run _ (gets_run _ w2)).
  cbn [truthy andb]. cbv zeta. rewrite H. reflexivity.
Qed.

(** X6. The entries that the reply handler writes to the audit log name no
    creator, neither as user id nor as [creatorId] detail, and the report
    keeps only entries that name the creator asked for. So no turn of the
    reply handler, blocked, escalated, stopped or answered, changes the
    compliance report of any creator for any period. *)
Theorem reply_turn_never_changes_a_compliance_report
  (llm : LLMService) (fanId personaId message : string) (w : World)
  (creator : string) (startDate endDate : nat) :
  fst (generateComplianceReport creator startDate endDate
         (snd (postAiReply llm fanId personaId message w))) =
  fst (generateComplianceReport creator startDate endDate w).
Proof.
  destruct (postAiReply_audit_names_no_creator llm fanId personaId message w)
    as (new & Hlogs & Hnew).
  apply generateComplianceReport_reads_relevant_logs.
  rewrite Hlogs, filter_app, filter_none; [reflexivity|].
  eapply Forall_impl; [|exact Hnew].
  intros l (Huser & Hfield). rewrite Huser, Hfield. cbn. apply andb_false_r.
Qed.

Lemma disjoint_filters_fit {T : Type} (p q r : T -> bool) (l : list T) :
  (forall x, p x = true -> r x = true) ->
  (forall x, q x = true -> r x = true) ->
  (forall x, p x = true -> q x = false) ->
  List.length (filter p l) + List.length (filter q l) <= List.length (filter r l).
Proof.
  intros Hp Hq Hpq. induction l as [|x l IH]; simpl; [lia|].
  destruct (p x) eqn:Ep.
  - rewrite (Hp x Ep), (Hpq x Ep). simpl. lia.
  - destruct (q x) eqn:Eq.
    + rewrite (Hq x Eq). simpl. lia.
    + destruct (r x); simpl; lia.
Qed.

(** X7. The compliance report never throws: when the read of the audit log
    fails it returns the report of zeros, with score 0. Every report it
    returns has the blocked and the escalated messages together at most the
    moderated ones, a score between 0 and 100 and at most twenty key events.
    In a report computed from the log the score is 100 when the period has
    no interaction; the report of a failed read has no interaction and score
    0. The report itself writes nothing. *)
Theorem compliance_report_is_consistent
  (getLogs : Async (list AuditLog)) (creator : string) (startDate endDate : nat) (w : World) :
  exists r,
    generateComplianceReportFrom getLogs creator startDate endDate w =
      (Returned r, snd (getLogs w)) /\
    blockedMessages r + escalations r <= moderatedMessages r /\
    (0 <= reportScore r <= 100)%Q /\
    List.length (keyEvents r) <= 20 /\
    match fst (getLogs w) with
    | Returned _ => totalInteractions r = 0 -> (reportScore r == 100)%Q
    | Thrown _ => r = mkComplianceReport 0 0 0 0 0%Q []
    end.
Proof.
  unfold generateComplianceReportFrom, tryCatch, bind.
  destruct (getLogs w) as [[logs|e] w1]; cbn [fst snd ret].
  - cbv zeta. set (relevant := filter _ logs).
    eexists. split; [reflexivity|]. cbn [blockedMessages escalations moderatedMessages
                                       reportScore totalInteractions keyEvents].
    split; [|split; [|split]].
    + apply disjoint_filters_fit.
      * intros l H. unfold isModerationOf in H. now apply andb_true_iff in H.
      * intros l H. unfold isModerationOf in H. now apply andb_true_iff in H.
      * intros l H. unfold isModerationOf in *.
        apply andb_true_iff in H. destruct H as [_ H].
        apply andb_false_iff. right.
        destruct (jsonField "action" (details l)) as [[]|]; try discriminate.
        cbn in *. apply String.eqb_eq in H. now subst.
    + apply decimal_bounds, tenths_bounds.
      destruct (0 <? _)%nat; [apply clamped_bounds, percent_nonneg | split; discriminate].
    + rewrite length_firstn. apply Nat.le_min_l.
    + intros ->. vm_compute. reflexivity.
  - eexists. split; [reflexivity|]. cbn. repeat split; try lia; discriminate.
Qed.

(** The method as the service exports it, on a log that can be read. *)
Lemma generateComplianceReport_run (creator : string) (startDate endDate : nat) (w : World) :
  exists r, generateComplianceReport creator startDate endDate w = (Returned r, w).
Proof.
  unfold generateComplianceReport, generateComplianceReportFrom, tryCatch, getAuditLogs.
  rewrite (bind_run _ (gets_run _ w)). eexists. reflexivity.
Qed.

(** ** Consent, end to end *)

Lemma postConsentAffirm_fans (fanId : string) (affirmations : list string) (w : World) :
  let consent := mkConsent (arrayIncludes affirmations "I am 18+")
                           (arrayIncludes affirmations "I consent to romantic messages")
                           (clock w) in
  let fs := map (fun x => if String.eqb (fan_id x) fanId
                          then applyFanUpdates (mkFanUpdates None None (Some consent)) (clock w) x
                          else x) (fans w) in
  exists w2,
    postConsentAffirm fanId affirmations w = (Returned (ConsentRecorded consent), w2) /\
    fans w2 = fs /\
    logAction "fan_interaction" "fan" fanId
      ([("interactionType", JStr "consent_affirmed")] ++
       [("affirmations", JArr (map JStr affirmations))] ++
       [("timestamp", JDate (clock w))])
      None (Some fanId) (withFans fs w) = (Returned tt, w2).
Proof.
  intros consent fs.
  destruct (logAction_returns "fan_interaction" "fan" fanId
              ([("interactionType", JStr "consent_affirmed")] ++
               [("affirmations", JArr (map JStr affirmations))] ++
               [("timestamp", JDate (clock w))])
              None (Some fanId) (withFans fs w)) as (w2 & Hlog & Hfans).
  exists w2. split; [|split; [exact Hfans | exact Hlog]].
  unfold postConsentAffirm. apply tryCatch_returned.
  rewrite (bind_run _ (gets_run clock w)).
  rewrite (bind_run (m := updateFan fanId (mkFanUpdates None None (Some consent)))
                    _ (w := w) (w1 := withFans fs w) eq_refl).
  unfold logFanInteraction.
  rewrite (bind_run (a := tt) (w1 := w2) _
             (eq_trans (bind_run _ (gets_run clock (withFans fs w))) Hlog)).
  reflexivity.
Qed.

Lemma find_none_map {T : Type} (key : T -> string) (g : T -> T) (id : string) (l : list T) :
  find (fun x => String.eqb (key x) id) l = None ->
  map (fun x => if String.eqb (key x) id then g x else x) l = l.
Proof.
  induction l as [|x l IH]; simpl; [reflexivity|].
  destruct (String.eqb (key x) id); [discriminate|].
  intros H. now rewrite (IH H).
Qed.

Lemma find_none_references {T : Type} (key : T -> string) (id : string) (l : list T) :
  find (fun x => String.eqb (key x) id) l = None ->
  references (Some id) (map key l) = false.
Proof.
  unfold references. induction l as [|x l IH]; simpl; [reflexivity|].
  destruct (String.eqb (key x) id) eqn:E; [discriminate|].
  intros H. rewrite String.eqb_sym, E. now apply IH.
Qed.

Lemma withFans_same (w : World) : withFans (fans w) w = w.
Proof. now destruct w. Qed.

(** X8. The consent gate reads what the affirmation wrote: after an
    affirmation recorded for an existing fan, the gate lets the fan through
    exactly when the array submitted holds both phrases. An affirmation of
    one phrase alone leaves the gate closed, also for a fan who had full
    consent before. *)
Theorem gate_after_affirmation
  (fanId : string) (affirmations : list string) (w : World) (f : Fan) :
  findFan fanId w = Some f ->
  fst (checkConsentGate fanId (snd (postConsentAffirm fanId affirmations w))) =
    Returned (arrayIncludes affirmations "I am 18+" &&
              arrayIncludes affirmations "I consent to romantic messages").
Proof.
  intros Hf.
  destruct (postConsentAffirm_fans fanId affirmations w) as (w2 & Hrun & Hfans & _).
  rewrite Hrun. cbn [snd]. rewrite checkConsentGate_run. cbn [fst].
  unfold findFan in *. rewrite Hfans.
  rewrite (find_map_update fan_id); [|reflexivity]. rewrite Hf. reflexivity.
Qed.

Lemma gate_after_affirmation_witness :
  fst (checkConsentGate "f1" demoWorld) = Returned true /\
  fst (checkConsentGate "f1" (snd (postConsentAffirm "f1" ["I am 18+"] demoWorld))) =
    Returned false.
Proof.
  split; [reflexivity|].
  exact (gate_after_affirmation "f1" ["I am 18+"] demoWorld consentedFan eq_refl).
Defined.

(** X9. An affirmation for a fan id that is not in the table is answered as
    a success with the consent record computed from the array, yet it stores
    nothing: no fan row, no audit entry, the world is as before and the gate
    stays closed for that id. *)
Theorem affirmation_for_unknown_fan_stores_nothing
  (fanId : string) (affirmations : list string) (w : World) :
  findFan fanId w = None ->
  postConsentAffirm fanId affirmations w =
    (Returned (ConsentRecorded
                 (mkConsent (arrayIncludes affirmations "I am 18+")
                            (arrayIncludes affirmations "I consent to romantic messages")
                            (clock w))), w) /\
  fst (checkConsentGate fanId w) = Returned false.
Proof.
  intros Hf. split.
  - destruct (postConsentAffirm_fans fanId affirmations w) as (w2 & Hrun & _ & Hlog).
    rewrite Hrun. f_equal.
    unfold findFan in Hf. rewrite (find_none_map fan_id _ _ _ Hf) in Hlog.
    rewrite withFans_same in Hlog.
    unfold logAction, tryCatch, createAuditLog, bind, gets in Hlog.
    cbn [ia_userId ia_fanId] in Hlog.
    rewrite (find_none_references fan_id _ _ Hf) in Hlog.
    cbn in Hlog. now inversion Hlog.
  - rewrite checkConsentGate_run. now rewrite Hf.
Qed.

Lemma affirmation_for_unknown_fan_stores_nothing_witness :
  snd (postConsentAffirm "ghost" ["I am 18+"; "I consent to romantic messages"] demoWorld) =
    demoWorld.
Proof.
  pose proof (proj1 (affirmation_for_unknown_fan_stores_nothing "ghost"
                ["I am 18+"; "I consent to romantic messages"] demoWorld eq_refl)) as H.
  now rewrite H.
Defined.

(** ** Answered turns *)

Lemma respondInConversation_keeps_service llm persona fan conversation message r :
  preserves moderationService (respondInConversation llm persona fan conversation message r).
Proof. unfold respondInConversation, processToolCalls. frame. Qed.

#[local] Hint Resolve respondInConversation_keeps_service : frame.

Lemma replyAfterModeration_keeps_service llm fanId personaId message r :
  preserves moderationService (replyAfterModeration llm fanId personaId message r).
Proof. unfold replyAfterModeration. destruct (checkStopWords message); frame. Qed.

(** The turn of a message that the classifier lets through for a fan with
    full consent. *)
Lemma allowed_reply_run
  (llm : LLMService) (fanId personaId message : string) (w : World) (p : Persona) (f : Fan) :
  instancePatterns (moderationService w) ->
  matchesNoTier message = true ->
  checkStopWords message = false ->
  findPersona personaId w = Some p ->
  findFan fanId w = Some f ->
  isConsented f = true ->
  let conv := conversationOfTurn fanId personaId w in
  let ai := respond llm (chatContext p f conv w) message in
  exists fanRow aiRow entry w',
    postAiReply llm fanId personaId message w =
      (if existsb dispatchedThroughThis (toolCalls ai)
       then Returned InternalError
       else Returned (Responded (ai_message ai) [] (conv_id conv) (msg_id aiRow)), w') /\
    messages w' = aiRow :: fanRow :: messages w /\
    (sender fanRow = "fan" /\ content fanRow = message /\ conversationId fanRow = conv_id conv) /\
    (sender aiRow = "ai" /\ content aiRow = ai_message ai /\ conversationId aiRow = conv_id conv) /\
    llmCalls w' = analyzeSentimentTag :: generateResponseTag :: llmCalls w /\
    auditLogs w' = entry :: auditLogs w /\ al_action entry = "ai_conversation" /\
    fans w' = fans w /\
    moderationQueue w' = moderationQueue w /\
    moderationService w' = newModerationService.
Proof.
  intros Hinst Hno Hstop Hp Hf Hc conv ai.
  pose proof (moderateMessage_no_match message (Some fanId) w Hinst Hno) as Hmod.
  set (w1 := withModerationService (resetService (moderationService w)) w) in *.
  pose proof (replyAfterModeration_responds llm fanId personaId message w1 (allowVerdict message)
                p f Hstop Hp Hf Hc) as Hresp.
  cbv zeta in Hresp.
  change (conversationOfTurn fanId personaId w1) with conv in Hresp.
  change (respond llm (chatContext p f conv w1) message) with ai in Hresp.
  destruct Hresp
    as (fanRow & aiRow & entry & w' & Hrun & Hmsg & HfanRow & HaiRow & Hllm &
        Haudit & Hact & Hfans).
  pose proof (replyAfterModeration_keeps_queue llm fanId personaId message
                (allowVerdict message) w1) as Hq.
  pose proof (replyAfterModeration_keeps_service llm fanId personaId message
                (allowVerdict message) w1) as Hsvc.
  rewrite Hrun in Hq, Hsvc. cbn [snd] in Hq, Hsvc.
  exists fanRow, aiRow, entry, w'.
  split; [|repeat split; try assumption; try (apply HfanRow); try (apply HaiRow)].
  - rewrite (postAiReply_passed llm _ personaId _ _ _ _ Hmod (or_introl eq_refl)).
    destruct (existsb dispatchedThroughThis (toolCalls ai)).
    + now rewrite (tryCatch_thrown _ _ _ _ _ Hrun).
    + now rewrite (tryCatch_returned _ _ _ _ _ Hrun).
  - rewrite Hsvc. subst w1. cbn [moderationService withModerationService].
    destruct Hinst as (Hb & Hs & He). unfold resetService, newModerationService.
    rewrite <- Hb, <- Hs, <- He. now rewrite !map_map.
Qed.

(** X10. A message that matches no pattern and contains no stop word, sent
    to an existing persona by a fan with full consent, is answered with what
    the language model returns for the persona, the fan record, the history
    of the conversation and the message: the fan's message and then that
    reply are stored in one conversation, one [ai_conversation] audit entry
    is written, and nothing is queued. The handler answers 200 with the
    reply and no actions, unless a tool call of the reply has the type
    [offer_menu], [create_payment_link] or [send_media]: then it answers
    500, with the same rows stored. *)
Theorem clean_message_from_consented_fan_is_answered
  (llm : LLMService) (fanId personaId message : string) (w : World) (p : Persona) (f : Fan) :
  instancePatterns (moderationService w) ->
  matchesNoTier message = true ->
  checkStopWords message = false ->
  findPersona personaId w = Some p ->
  findFan fanId w = Some f ->
  isConsented f = true ->
  let conv := conversationOfTurn fanId personaId w in
  let ai := respond llm (chatContext p f conv w) message in
  let dispatched :=
    existsb (fun t => String.eqb (tool_type t) "offer_menu" ||
                      String.eqb (tool_type t) "create_payment_link" ||
                      String.eqb (tool_type t) "send_media") (toolCalls ai) in
  exists fanRow aiRow entry w',
    postAiReply llm fanId personaId message w =
      (if dispatched
       then Returned InternalError
       else Returned (Responded (ai_message ai) [] (conv_id conv) (msg_id aiRow)), w') /\
    messages w' = aiRow :: fanRow :: messages w /\
    (sender fanRow = "fan" /\ content fanRow = message /\ conversationId fanRow = conv_id conv) /\
    (sender aiRow = "ai" /\ content aiRow = ai_message ai /\ conversationId aiRow = conv_id conv) /\
    llmCalls w' = analyzeSentimentTag :: generateResponseTag :: llmCalls w /\
    auditLogs w' = entry :: auditLogs w /\ al_action entry = "ai_conversation" /\
    moderationQueue w' = moderationQueue w.
Proof.
  intros Hinst Hno Hstop Hp Hf Hc conv ai dispatched.
  pose proof (allowed_reply_run llm fanId personaId message w p f Hinst Hno Hstop Hp Hf Hc)
    as Hrun.
  cbv zeta in Hrun. fold conv ai in Hrun.
  destruct Hrun
    as (fanRow & aiRow & entry & w' & H1 & H2 & H3 & H4 & H5 & H6 & H7 & _ & H8 & _).
  exists fanRow, aiRow, entry, w'. repeat split; try assumption;
    try apply H3; try apply H4.
Qed.

Lemma clean_message_from_consented_fan_is_answered_witness :
  exists w',
    postAiReply cannedModel "f1" "p1" "you're so sweet today" demoWorld =
      (Returned (Responded "hi there" [] "0" "2"), w') /\
    moderationQueue w' = [].
Proof.
  pose proof (clean_message_from_consented_fan_is_answered cannedModel "f1" "p1"
                "you're so sweet today" demoWorld ava consentedFan
                (conj eq_refl (conj eq_refl eq_refl)) eq_refl eq_refl eq_refl eq_refl eq_refl)
    as H.
  cbv zeta in H.
  destruct H as (fanRow & aiRow & entry & w' & Hreply & _ & _ & _ & _ & _ & _ & Hq).
  exists w'. split; [|exact Hq].
  rewrite Hreply. f_equal.
  assert (Hfst : fst (postAiReply cannedModel "f1" "p1" "you're so sweet today" demoWorld) =
                 Returned (Responded "hi there" [] "0" "2")) by (vm_compute; reflexivity).
  rewrite Hreply in Hfst. exact Hfst.
Defined.




(** ** One active conversation per fan and persona *)

Lemma filter_map_same_length {T : Type} (p : T -> bool) (g : T -> T) (l : list T) :
  (forall x, p (g x) = p x) ->
  List.length (filter p (map g l)) = List.length (filter p l).
Proof.
  intros H. induction l as [|x l IH]; simpl; [reflexivity|].
  rewrite H. destruct (p x); simpl; now rewrite IH.
Qed.



Section Conversations.

Variables (llm : LLMService) (fanId personaId message : string).



End Conversations.



(** ** Payment events in the audit log *)

Lemma truthy_nonempty (s : string) : s <> "" -> truthy (Some s) = true.
Proof. destruct s; [congruence | reflexivity]. Qed.

Lemma orDefault_nonempty (d s : string) : s <> "" -> orDefault d (Some s) = s.
Proof. destruct s; [congruence | reflexivity]. Qed.

(** X13. A succeeded payment is logged only when the audit log already holds
    an entry for that payment: from a log without one, the handler of the
    success event returns without writing anything, whatever the intent
    carries. *)
Theorem payment_success_without_earlier_entry_is_not_logged
  (paymentIntent : PaymentIntent) (w : World) :
  pi_id paymentIntent <> "" ->
  Forall (fun l => ~ (entityType l = "payment" /\ entityId l = pi_id paymentIntent))
         (auditLogs w) ->
  handlePaymentSuccess paymentIntent w = (Returned tt, w).
Proof.
  intros Hid Hnone. unfold handlePaymentSuccess, tryCatch, getAuditLogs.
  rewrite (bind_run _ (gets_run _ w)).
  rewrite (truthy_nonempty _ Hid). cbn [truthy andb orEmpty].
  rewrite filter_none; [reflexivity|].
  eapply Forall_impl; [|exact Hnone].
  intros l Hl. cbv beta in *.
  destruct (String.eqb (entityType l) "payment") eqn:Et; [|reflexivity].
  destruct (String.eqb (entityId l) (pi_id paymentIntent)) eqn:Ei; [|reflexivity].
  apply String.eqb_eq in Et, Ei. exfalso. apply Hl. now split.
Qed.

Lemma payment_success_without_earlier_entry_is_not_logged_witness :
  handlePaymentSuccess failedIntent demoWorld = (Returned tt, demoWorld).
Proof.
  apply payment_success_without_earlier_entry_is_not_logged.
  - discriminate.
  - constructor.
Defined.

Lemma logPayment_for_known_fan (paymentId fanId productType st : string) (amount : Z)
  (w : World) (f : Fan) :
  findFan fanId w = Some f ->
  logPayment paymentId fanId amount productType st w =
    (Returned tt,
     logged (mkInsertAuditLog "payment_event" "payment" paymentId None (Some fanId)
               [("fanId", JStr fanId); ("amountCents", JNum (inject_Z amount));
                ("productType", JStr productType); ("status", JStr st);
                ("timestamp", JDate (clock w))]) w).
Proof.
  intros Hf. unfold logPayment. rewrite (bind_run _ (gets_run clock w)).
  unfold logAction, tryCatch, createAuditLog, bind, gets.
  cbn [ia_userId ia_fanId references].
  pose proof (find_references fan_id _ _ _ Hf) as Href. unfold references in Href.
  rewrite Href. reflexivity.
Qed.

(** X14. A failed payment whose intent names an existing fan appends one
    [payment_event] entry for the payment, with the fan and the status
    [failed]; from then on a success event for the same payment is logged
    too, as a second entry with status [completed]. *)
Theorem payment_failure_is_logged_and_unlocks_success
  (paymentIntent : PaymentIntent) (fanId : string) (w : World) (f : Fan) :
  pi_id paymentIntent <> "" ->
  pi_fanId paymentIntent = Some fanId ->
  fanId <> "" ->
  findFan fanId w = Some f ->
  let w1 := snd (handlePaymentFailed paymentIntent w) in
  let w2 := snd (handlePaymentSuccess paymentIntent w1) in
  exists failed completed,
    auditLogs w1 = failed :: auditLogs w /\
    auditLogs w2 = completed :: failed :: auditLogs w /\
    (al_action failed = "payment_event" /\ entityType failed = "payment" /\
     entityId failed = pi_id paymentIntent /\ al_fanId failed = Some fanId /\
     jsonField "status" (details failed) = Some (JStr "failed")) /\
    (al_action completed = "payment_event" /\ entityId completed = pi_id paymentIntent /\
     jsonField "status" (details completed) = Some (JStr "completed")).
Proof.
  intros Hid Hfan Hne Hf w1 w2.
  assert (H1 : handlePaymentFailed paymentIntent w =
               (Returned tt,
                logged (mkInsertAuditLog "payment_event" "payment" (pi_id paymentIntent) None
                          (Some fanId)
                          [("fanId", JStr fanId);
                           ("amountCents", JNum (inject_Z (pi_amount paymentIntent)));
                           ("productType",
                            JStr (orDefault "unknown" (pi_productType paymentIntent)));
                           ("status", JStr "failed"); ("timestamp", JDate (clock w))]) w)).
  { unfold handlePaymentFailed. apply tryCatch_returned.
    rewrite Hfan, (orDefault_nonempty _ _ Hne). now apply (logPayment_for_known_fan _ _ _ _ _ _ f). }
  subst w2 w1. rewrite H1. cbn [snd].
  set (w1 := logged _ w).
  assert (Hf1 : findFan fanId w1 = Some f) by exact Hf.
  assert (H2 : handlePaymentSuccess paymentIntent w1 =
               (Returned tt,
                logged (mkInsertAuditLog "payment_event" "payment" (pi_id paymentIntent) None
                          (Some fanId)
                          [("fanId", JStr fanId);
                           ("amountCents", JNum (inject_Z (pi_amount paymentIntent)));
                           ("productType",
                            JStr (orDefault "unknown" (pi_productType paymentIntent)));
                           ("status", JStr "completed"); ("timestamp", JDate (clock w1))]) w1)).
  { unfold handlePaymentSuccess. apply tryCatch_returned.
    unfold getAuditLogs. rewrite (bind_run _ (gets_run _ w1)).
    rewrite (truthy_nonempty _ Hid). cbn [truthy andb orEmpty].
    unfold w1 at 1. cbn [auditLogs logged withAuditLogs withNextId filter auditRow
                         entityType entityId ia_entityType ia_entityId].
    rewrite !String.eqb_refl. cbn [andb List.length Nat.eqb].
    rewrite Hfan, (orDefault_nonempty _ _ Hne).
    now apply (logPayment_for_known_fan _ _ _ _ _ _ f). }
  rewrite H2. cbn [snd].
  do 2 eexists. split; [reflexivity|]. split; [reflexivity|].
  split; repeat split; reflexivity.
Qed.

Lemma payment_failure_is_logged_and_unlocks_success_witness :
  map (fun l => jsonField "status" (details l))
      (auditLogs (snd (handlePaymentSuccess failedIntent
                         (snd (handlePaymentFailed failedIntent demoWorld))))) =
    [Some (JStr "completed"); Some (JStr "failed")].
Proof.
  destruct (payment_failure_is_logged_and_unlocks_success failedIntent "f1" demoWorld
              consentedFan ltac:(discriminate) eq_refl ltac:(discriminate) eq_refl)
    as (failed & completed & _ & H2 & (_ & _ & _ & _ & Hfailed) & (_ & _ & Hcompleted)).
  rewrite H2. cbn [map auditLogs demoWorld]. now rewrite Hfailed, Hcompleted.
Defined.

(** X15. A payment event whose intent names no fan is never logged: the
    audit entry would refer to the fan with the empty id, the write fails and
    the failure is swallowed, so the handler returns with the world as it
    was. *)
Theorem payment_event_without_fan_is_not_logged
  (paymentIntent : PaymentIntent) (w : World) :
  pi_fanId paymentIntent = None ->
  findFan "" w = None ->
  handlePaymentFailed paymentIntent w = (Returned tt, w).
Proof.
  intros Hfan Hnone. unfold handlePaymentFailed, tryCatch, logPayment.
  rewrite Hfan. cbn [orDefault].
  rewrite (bind_run _ (gets_run clock w)).
  unfold logAction, tryCatch, createAuditLog, bind, gets.
  cbn [ia_userId ia_fanId].
  rewrite (find_none_references fan_id _ _ Hnone). reflexivity.
Qed.

Lemma payment_event_without_fan_is_not_logged_witness :
  handlePaymentFailed orphanIntent demoWorld = (Returned tt, demoWorld).
Proof.
  exact (payment_event_without_fan_is_not_logged orphanIntent demoWorld eq_refl eq_refl).
Defined.

(** ** Reading the audit trail *)

Lemma firstn_subset {T : Type} (n : nat) :
  forall (l : list T) (x : T), In x (firstn n l) -> In x l.
Proof.
  induction n as [|n IH]; intros l x H; simpl in H; [contradiction|].
  destruct l as [|y l]; [contradiction|].
  destruct H as [-> | H]; [now left | right; now apply IH].
Qed.

Lemma processStopRequest_run (fanId : string) (w : World) :
  processStopRequest fanId w = (Returned tt, stopped fanId w).
Proof. reflexivity. Qed.

(** X16. A stop request can be read back: after it has been processed for a
    fan, the audit trail of that fan, asked for with a positive limit, starts
    with the [stop_request] entry. The trail holds at most [limit] entries
    and only entries of that fan. *)
Theorem stop_request_heads_the_fan_trail (fanId : string) (limit : nat) (w : World) :
  fanId <> "" ->
  0 < limit ->
  let w' := snd (processStopRequest fanId w) in
  exists entry earlier,
    getAuditTrail "fan" fanId limit w' = (Returned (entry :: earlier), w') /\
    al_action entry = "stop_request" /\
    Forall (fun l => entityType l = "fan" /\ entityId l = fanId) (entry :: earlier) /\
    List.length (entry :: earlier) <= limit.
Proof.
  intros Hid Hlimit w'. subst w'. rewrite processStopRequest_run. cbn [snd].
  unfold getAuditTrail, tryCatch, getAuditLogs.
  rewrite (bind_run _ (gets_run _ _)).
  rewrite (truthy_nonempty _ Hid). cbn [truthy andb orEmpty].
  set (p := fun l => String.eqb (entityType l) "fan" && String.eqb (entityId l) fanId).
  set (row := auditRow (withFans (map (fun f => if String.eqb (fan_id f) fanId
                                               then optedOut (clock w) f else f) (fans w)) w)
                       (stopAudit fanId)).
  assert (Hlogs : filter p (auditLogs (stopped fanId w)) = row :: filter p (auditLogs w)).
  { unfold stopped. cbn [auditLogs logged withAuditLogs withNextId withFans filter].
    fold row. unfold p at 1. cbn [row auditRow entityType entityId stopAudit
                                  ia_entityType ia_entityId].
    now rewrite !String.eqb_refl. }
  rewrite Hlogs. destruct limit as [|limit]; [lia|].
  cbn [firstn]. do 2 eexists. split; [reflexivity|].
  split; [reflexivity|]. split.
  - assert (Hall : Forall (fun l => entityType l = "fan" /\ entityId l = fanId)
                          (filter p (auditLogs (stopped fanId w)))).
    { apply Forall_forall. intros l Hl. apply filter_In in Hl. destruct Hl as [_ Hp].
      unfold p in Hp. apply andb_true_iff in Hp. destruct Hp as [Ht Hi].
      apply String.eqb_eq in Ht, Hi. now split. }
    rewrite Hlogs in Hall. inversion Hall as [|x l Hx Hrest]; subst.
    constructor; [exact Hx|].
    apply Forall_forall. intros l Hl. rewrite Forall_forall in Hrest.
    apply Hrest. now apply (firstn_subset limit).
  - cbn [List.length]. apply le_n_S. rewrite length_firstn. apply Nat.le_min_l.
Qed.

Lemma stop_request_heads_the_fan_trail_witness :
  exists entry earlier,
    fst (getAuditTrail "fan" "f1" 5 (snd (processStopRequest "f1" demoWorld))) =
      Returned (entry :: earlier) /\
    al_action entry = "stop_request".
Proof.
  destruct (stop_request_heads_the_fan_trail "f1" 5 demoWorld ltac:(discriminate) ltac:(lia))
    as (entry & earlier & Htrail & Haction & _).
  exists entry, earlier. split; [now rewrite Htrail | exact Haction].
Defined.

(** ** Resolving and the score *)

Lemma countBlocked_after_update (id : string) (u : ModerationQueueUpdates)
  (q : list ModerationQueue) :
  (set_status u = Some "blocked" ->
   countBlocked q <= countBlocked (map (fun i => if String.eqb (mq_id i) id
                                                 then applyQueueUpdates u i else i) q)) /\
  ((exists st, set_status u = Some st /\ String.eqb st "blocked" = false) ->
   countBlocked (map (fun i => if String.eqb (mq_id i) id
                               then applyQueueUpdates u i else i) q) <= countBlocked q).
Proof.
  unfold countBlocked. split.
  - intros Hu. induction q as [|i q IH]; simpl; [lia|].
    destruct (String.eqb (mq_id i) id).
    + cbn [status applyQueueUpdates]. rewrite Hu. cbn.
      destruct (String.eqb (status i) "blocked"); simpl; lia.
    + destruct (String.eqb (status i) "blocked"); simpl; lia.
  - intros (st & Hu & Hst). induction q as [|i q IH]; simpl; [lia|].
    destruct (String.eqb (mq_id i) id).
    + cbn [status applyQueueUpdates]. rewrite Hu, Hst.
      destruct (String.eqb (status i) "blocked"); simpl; lia.
    + destruct (String.eqb (status i) "blocked"); simpl; lia.
Qed.

Lemma countCritical_after_update (id : string) (u : ModerationQueueUpdates)
  (q : list ModerationQueue) :
  countCritical (map (fun i => if String.eqb (mq_id i) id
                               then applyQueueUpdates u i else i) q) = countCritical q.
Proof.
  unfold countCritical. apply filter_map_same_length.
  intros i. now destruct (String.eqb (mq_id i) id).
Qed.

Lemma putModerationQueue_queue (id : string) (newStatus reviewer : option string) (w : World) :
  moderationQueue (snd (putModerationQueue id newStatus reviewer w)) = moderationQueue w \/
  moderationQueue (snd (putModerationQueue id newStatus reviewer w)) =
    map (fun i => if String.eqb (mq_id i) id
                  then applyQueueUpdates (mkQueueUpdates newStatus reviewer (Some (clock w))) i
                  else i) (moderationQueue w).
Proof.
  unfold putModerationQueue, tryCatch.
  rewrite (bind_run _ (gets_run clock w)).
  unfold bind, updateModerationQueue.
  destruct (existsb _ (moderationQueue w) && negb _); [left | right]; reflexivity.
Qed.

(** X17. Resolving an item as [blocked] never raises the compliance score,
    and resolving it with any other status never lowers it, whichever item
    is resolved and whatever its status was. *)
Theorem blocking_lowers_and_clearing_raises_the_score
  (id newStatus : string) (reviewer : option string) (w : World) :
  let w' := snd (putModerationQueue id (Some newStatus) reviewer w) in
  exists before after,
    getComplianceScore w = (Returned before, w) /\
    getComplianceScore w' = (Returned after, w') /\
    (newStatus = "blocked" -> (after <= before)%Q) /\
    (newStatus <> "blocked" -> (before <= after)%Q).
Proof.
  intros w'. do 2 eexists.
  split; [apply getComplianceScore_run|]. split; [apply getComplianceScore_run|].
  destruct (putModerationQueue_queue id (Some newStatus) reviewer w) as [Hq | Hq];
    fold w' in Hq; rewrite Hq.
  - split; intros _; apply Qle_refl.
  - rewrite length_map, countCritical_after_update.
    destruct (countBlocked_after_update id
                (mkQueueUpdates (Some newStatus) reviewer (Some (clock w)))
                (moderationQueue w)) as [Hup Hdown].
    split.
    + intros ->. apply complianceScore_antitone; [now apply Hup | apply Nat.le_refl].
    + intros Hne. apply complianceScore_antitone; [|apply Nat.le_refl].
      apply Hdown. exists newStatus. split; [reflexivity|].
      now apply String.eqb_neq.
Qed.

Lemma withModerationQueue_same (w : World) : withModerationQueue (moderationQueue w) w = w.
Proof. now destruct w. Qed.

(** X18. Resolving an id that is not in the queue is no error: the route
    answers with an empty item and the world is as it was, also when the
    reviewer given is not a user. *)
Theorem resolving_unknown_item_changes_nothing
  (id : string) (newStatus reviewer : option string) (w : World) :
  findQueueItem id w = None ->
  putModerationQueue id newStatus reviewer w = (Returned (QueueItem None), w).
Proof.
  unfold findQueueItem. intros Hnone.
  unfold putModerationQueue, tryCatch.
  rewrite (bind_run _ (gets_run clock w)).
  unfold bind, updateModerationQueue.
  assert (Hhit : existsb (fun i => String.eqb (mq_id i) id) (moderationQueue w) = false).
  { destruct (existsb _ (moderationQueue w)) eqn:E; [|reflexivity].
    apply existsb_exists in E. destruct E as (i & Hin & Hi).
    now rewrite (find_none _ _ Hnone i Hin) in Hi. }
  rewrite Hhit. cbn [andb].
  rewrite (find_none_map mq_id _ _ _ Hnone), Hnone, withModerationQueue_same.
  reflexivity.
Qed.

Lemma resolving_unknown_item_changes_nothing_witness :
  putModerationQueue "q9" (Some "approved") (Some "nobody") reviewWorld =
    (Returned (QueueItem None), reviewWorld).
Proof.
  exact (resolving_unknown_item_changes_nothing "q9" (Some "approved") (Some "nobody")
           reviewWorld eq_refl).
Defined.

(** X19. Resolving never adds or removes a queue row and never touches what
    was flagged: after any call, accepted or rejected, the queue holds the
    same rows in the same order with the same id, text, flag reason,
    severity and creation time; and every other table is as it was. *)
Theorem resolving_keeps_the_flagged_content
  (id : string) (newStatus reviewer : option string) (w : World) :
  let w' := snd (putModerationQueue id newStatus reviewer w) in
  map (fun i => (mq_id i, mq_content i, flagReason i, mq_severity i, mq_createdAt i))
      (moderationQueue w') =
  map (fun i => (mq_id i, mq_content i, flagReason i, mq_severity i, mq_createdAt i))
      (moderationQueue w) /\
  auditLogs w' = auditLogs w /\ fans w' = fans w /\ messages w' = messages w /\
  conversations w' = conversations w.
Proof.
  intros w'. split.
  - destruct (putModerationQueue_queue id newStatus reviewer w) as [Hq | Hq];
      fold w' in Hq; rewrite Hq; [reflexivity|].
    rewrite map_map. apply map_ext. intros i.
    now destruct (String.eqb (mq_id i) id).
  - subst w'. unfold putModerationQueue, tryCatch.
    rewrite (bind_run _ (gets_run clock w)).
    unfold bind, updateModerationQueue.
    destruct (existsb _ (moderationQueue w) && negb _); repeat split.
Qed.

(** ** The safety analytics *)

Lemma getAnalyticsSafety_run (w : World) :
  getAnalyticsSafety w =
    (Returned (SafetyReport
                 (complianceScore (List.length (moderationQueue w))
                                  (countBlocked (moderationQueue w))
                                  (countCritical (moderationQueue w)))
                 (List.length (filter (fun i => String.eqb (status i) "pending")
                                      (moderationQueue w)))
                 (List.length (moderationQueue w))), w).
Proof. reflexivity. Qed.

Lemma postAiReply_queue_exact
  (llm : LLMService) (fanId personaId message : string) (w : World) (a : Action) :
  classifierVerdict message w = Some a ->
  exists new,
    moderationQueue (snd (postAiReply llm fanId personaId message w)) =
      new ++ moderationQueue w /\
    Forall (fun i => status i = "pending") new /\
    List.length new = match a with
                      | allow => 0
                      | block | review => 1
                      | escalate => 2
                      end.
Proof.
  intros Hv.
  destruct (moderateMessage_cases message (Some fanId) w) as (svc' & _ & [H|[H|[H|H]]]);
    rewrite (classifierVerdict_of _ _ _ _ _ H) in Hv; inversion Hv; subst a; clear Hv.
  - rewrite (postAiReply_escalated llm _ personaId _ _ _ H).
    eexists [_; _]. split; [reflexivity|]. split; [repeat constructor | reflexivity].
  - rewrite (postAiReply_blocked llm _ personaId _ _ _ H).
    eexists [_]. split; [reflexivity|]. split; [repeat constructor | reflexivity].
  - rewrite (postAiReply_passed llm _ personaId _ _ _ _ H (or_intror eq_refl)).
    pose proof (replyAfterModeration_keeps_queue llm fanId personaId message reviewVerdict
                  (enqueue message "suspicious_pattern" medium (withModerationService svc' w)))
      as Hq.
    exists [queuedItem (withModerationService svc' w) message "suspicious_pattern" medium].
    split; [|split; [repeat constructor | reflexivity]].
    unfold tryCatch.
    destruct (replyAfterModeration llm fanId personaId message reviewVerdict _) as [[x|e] w1];
      cbn [snd ret] in *; rewrite Hq; reflexivity.
  - rewrite (postAiReply_passed llm _ personaId _ _ _ _ H (or_introl eq_refl)).
    pose proof (replyAfterModeration_keeps_queue llm fanId personaId message
                  (allowVerdict message) (withModerationService svc' w)) as Hq.
    exists []. split; [|split; [constructor | reflexivity]].
    unfold tryCatch.
    destruct (replyAfterModeration llm fanId personaId message (allowVerdict message) _)
      as [[x|e] w1]; cbn [snd ret] in *; rewrite Hq; reflexivity.
Qed.

Lemma filter_all {T : Type} (p : T -> bool) (l : list T) :
  Forall (fun x => p x = true) l -> filter p l = l.
Proof.
  induction 1 as [|x l Hx _ IH]; simpl; [reflexivity|]. now rewrite Hx, IH.
Qed.

(** X20. What moderation flags shows at once in the safety analytics: after
    a turn whose verdict is block or review the pending reviews and the
    total of moderated items are each one more than before, after an
    escalated turn two more, after an allowed turn the same; and the pending
    reviews never exceed the total. The analytics themselves change nothing. *)
Theorem flagged_turn_shows_in_safety_analytics
  (llm : LLMService) (fanId personaId message : string) (w : World) (a : Action) :
  classifierVerdict message w = Some a ->
  let w' := snd (postAiReply llm fanId personaId message w) in
  let added := match a with
               | allow => 0
               | block | review => 1
               | escalate => 2
               end in
  exists before after pending total,
    getAnalyticsSafety w = (Returned (SafetyReport before pending total), w) /\
    getAnalyticsSafety w' =
      (Returned (SafetyReport after (pending + added) (total + added)), w') /\
    pending <= total.
Proof.
  intros Hv w' added.
  destruct (postAiReply_queue_exact llm fanId personaId message w a Hv)
    as (new & Hq & Hpending & Hlen).
  fold w' in Hq. fold added in Hlen.
  do 4 eexists. split; [apply getAnalyticsSafety_run|]. split.
  - rewrite (getAnalyticsSafety_run w'). rewrite Hq.
    rewrite filter_app, !length_app, filter_all.
    + rewrite Hlen. do 3 f_equal; apply Nat.add_comm.
    + eapply Forall_impl; [|exact Hpending]. intros i Hi. cbv beta. now rewrite Hi.
  - apply filter_length_le.
Qed.

Lemma flagged_turn_shows_in_safety_analytics_witness :
  exists before after,
    fst (getAnalyticsSafety demoWorld) = Returned (SafetyReport before 0 0) /\
    fst (getAnalyticsSafety (snd (postAiReply cannedModel "f1" "p1" "kill" demoWorld))) =
      Returned (SafetyReport after 2 2).
Proof.
  destruct (flagged_turn_shows_in_safety_analytics cannedModel "f1" "p1" "kill" demoWorld
              escalate eq_refl)
    as (before & after & pending & total & H1 & H2 & _).
  assert (Hpt : pending = 0 /\ total = 0).
  { assert (H0 : fst (getAnalyticsSafety demoWorld) = fst (getAnalyticsSafety demoWorld))
      by reflexivity.
    rewrite H1 in H0 at 1. vm_compute in H0. inversion H0. now split. }
  destruct Hpt as [-> ->].
  exists before, after. rewrite H1, H2. split; reflexivity.
Defined.
